(** * The Neo4j graph store client and the application's guarded run

    A shallow embedding of [src/clients/neo4j.py] (class [Neo4jClient]) and of
    [main] in [src/application.py].

    The client talks to a Neo4j server through Cypher texts that it builds by
    string interpolation.  The server is not part of the repository; it is
    modelled here by the documented meaning of the few Cypher statements the
    client issues ([MATCH], [CREATE], [SET n:Label], [MERGE], [SET r += map]).
    Where an interpolated text leaves the form of these statements, what the
    server does is not fixed here: it is a field of the [Environment], as is
    the driver library's answer to the connection URI.
    Python's exceptions, its mutable [Relationship] objects and the logger are
    modelled by a state-and-exception monad over a [World]. *)

From Stdlib Require Import Ascii.
From stdpp Require Import gmap strings list fin_maps.

Open Scope string_scope.

(** ** Python values that the client hands to the store *)

(** Property values: [None], booleans, integers and strings.  Floats, lists
    and nested containers are not modelled. *)
Inductive pyobj :=
| PyNone
| PyBool (b : bool)
| PyInt (z : Z)
| PyStr (s : string).

#[global] Instance pyobj_eq_dec : EqDecision pyobj.
Proof. solve_decision. Defined.

(** The [attributes] field of a [Relationship]: a [dict] with string keys, or
    any other object (the test is [isinstance(attributes, dict)]). *)
Inductive attributes_t :=
| Mapping (d : gmap string pyobj)
| NonMapping (v : pyobj).

(** [core.models.Entity], as the client reads it. *)
Record Entity := mkEntity {
  name : string;
  description : string;
  category : list string }.

(** [core.models.Relationship], as the client reads and writes it. *)
Record Relationship := mkRelationship {
  source_entity_name : string;
  target_entity_name : string;
  relation_type : string;
  attributes : attributes_t }.

(** ** The stored graph *)

Record Node := mkNode {
  node_id : nat;                 (* elementId(n) *)
  node_labels : gset string;
  node_name : string;            (* n.name *)
  node_description : string }.   (* n.description *)

Record Edge := mkEdge {
  edge_src : nat;                (* elementId of the start node *)
  edge_tgt : nat;                (* elementId of the end node *)
  edge_type : string;
  edge_attrs : gmap string pyobj }.

Record Db := mkDb {
  nodes : list Node;
  edges : list Edge;
  next_id : nat }.               (* the identifier the next created node gets *)

Definition empty_db : Db := mkDb [] [] 0.

(** ** Exceptions *)

Inductive exn :=
| AttributeError          (* [self._driver] is [None] *)
| ServiceUnavailable      (* the server cannot be reached *)
| DriverError             (* the driver was closed *)
| CypherSyntaxError       (* the server refuses the query text *)
| ReferenceError          (* a reference to no object: unreachable in Python *)
| SystemExit (code : Z)
| KeyboardInterrupt
| OtherException (what : string).

(** [except Exception] catches everything but the [BaseException]-only
    classes. *)
Definition is_Exception (e : exn) : bool :=
  match e with
  | SystemExit _ | KeyboardInterrupt => false
  | _ => true
  end.

Inductive result (A : Type) :=
| Ok (a : A)
| Raise (e : exn).
Arguments Ok {A} a.
Arguments Raise {A} e.

(** ** The text of a label list *)

Definition backquote : Ascii.ascii := "`"%char.
Definition colon : Ascii.ascii := ":"%char.

Definition snoc_char (s : string) (c : Ascii.ascii) : string := s ++ String c "".

(** [f"`{category}`"] *)
Definition quote_label (c : string) : string := "`" ++ c ++ "`".

(** [":".join([f"`{category}`" for category in entity_data.category])
    if entity_data.category else ""] *)
Definition category_labels (cats : list string) : string :=
  match cats with
  | [] => ""
  | _ => String.concat ":" (map quote_label cats)
  end.

(** Does the character occur in the string. *)
Fixpoint mentions (c : Ascii.ascii) (s : string) : bool :=
  match s with
  | EmptyString => false
  | String a s' => Ascii.eqb a c || mentions c s'
  end.

Definition nul : Ascii.ascii := Ascii.zero.
Definition backslash : Ascii.ascii := Ascii.ascii_of_nat 92.
Definition double_quote : Ascii.ascii := Ascii.ascii_of_nat 34.
Definition single_quote : Ascii.ascii := Ascii.ascii_of_nat 39.

(** How the server reads the text that follows [n:] in [SET n:...] and
    [CREATE (n:...], and the text of the relationship type in [MERGE]: one or
    more backquoted names separated by colons; inside a name a doubled
    backquote stands for one backquote.  The scanner returns the names and
    what is left of the text where the list of names ends. *)
Inductive scan_state :=
| Start                       (* an opening backquote is due *)
| Inside (acc : string)       (* inside a name *)
| Closed (acc : string).      (* just after a backquote inside a name *)

Fixpoint scan (st : scan_state) (seen : list string) (s : string)
  : option (list string * string) :=
  match s with
  | EmptyString =>
      match st with
      | Closed acc => Some (rev (acc :: seen), "")
      | _ => None
      end
  | String c s' =>
      match st with
      | Start =>
          if Ascii.eqb c backquote then scan (Inside "") seen s' else None
      | Inside acc =>
          if Ascii.eqb c backquote then scan (Closed acc) seen s'
          else scan (Inside (snoc_char acc c)) seen s'
      | Closed acc =>
          if Ascii.eqb c backquote then scan (Inside (snoc_char acc backquote)) seen s'
          else if Ascii.eqb c colon then scan Start (acc :: seen) s'
          else Some (rev (acc :: seen), s)
      end
  end.

(** The server stores no empty name and no name with a null character. *)
Definition stored_name (l : string) : bool :=
  match l with
  | EmptyString => false
  | _ => negb (mentions nul l)
  end.

(** What the server makes of an interpolated text:
    - [Labels]: a list of names, all of which it stores;
    - [LabelsAndDescription]: in [SET n:...] only, a list of names followed by
      [ SET n.description = '...' SET n:] and a second list of names, which a
      category can bring about by closing its own quoting;
    - [Refused]: the empty text and a list with a name that is not stored;
    - [Outside]: any other text.  It may be no Cypher at all or a statement
      of another form; the answer of the server is then taken from the
      [Environment]. *)
Inductive reading :=
| Labels (ls : list string)
| LabelsAndDescription (ls : list string) (d : string) (ls' : list string)
| Refused
| Outside.

Definition checked (ls : list string) (r : reading) : reading :=
  if forallb stored_name ls then r else Refused.

Definition read_labels (text : string) : reading :=
  match text with
  | EmptyString => Refused
  | _ =>
      match scan Start [] text with
      | Some (ls, EmptyString) => checked ls (Labels ls)
      | _ => Outside
      end
  end.

(** [s] without the prefix [p], when it has that prefix. *)
Fixpoint strip_prefix (p s : string) : option string :=
  match p with
  | EmptyString => Some s
  | String a p' =>
      match s with
      | String b s' => if Ascii.eqb a b then strip_prefix p' s' else None
      | EmptyString => None
      end
  end.

(** The text before the first [c] and the text after it. *)
Fixpoint break_at (c : Ascii.ascii) (s : string) : option (string * string) :=
  match s with
  | EmptyString => None
  | String a s' =>
      if Ascii.eqb a c then Some ("", s')
      else match break_at c s' with
           | Some (b, r) => Some (String a b, r)
           | None => None
           end
  end.

(** The text after [SET n:], which ends the query.  A string literal is read
    without escapes: a literal with a backslash is left to the environment. *)
Definition read_set (text : string) : reading :=
  match text with
  | EmptyString => Refused
  | _ =>
      match scan Start [] text with
      | Some (ls, EmptyString) => checked ls (Labels ls)
      | Some (ls, rest) =>
          match strip_prefix " SET n.description = '" rest with
          | Some rest1 =>
              match break_at single_quote rest1 with
              | Some (d, rest2) =>
                  match strip_prefix " SET n:" rest2 with
                  | Some rest3 =>
                      match scan Start [] rest3 with
                      | Some (ls', EmptyString) =>
                          if mentions backslash d then Outside
                          else checked (ls ++ ls')%list (LabelsAndDescription ls d ls')
                      | _ => Outside
                      end
                  | None => Outside
                  end
              | None => Outside
              end
          | None => Outside
          end
      | None => Outside
      end
  end.

(** ** The Cypher statements the client issues, on the stored graph *)

(** [MATCH (n {name: $name}) RETURN elementId(n) AS existing_node_id]: the
    identifiers of the nodes whose [name] property is [$name], in store order. *)
Definition cypher_match_name (nm : string) (g : Db) : list nat :=
  map node_id (filter (λ n, node_name n = nm) (nodes g)).

Definition add_labels (ls : gset string) (n : Node) : Node :=
  mkNode (node_id n) (node_labels n ∪ ls) (node_name n) (node_description n).

Definition set_description (d : string) (n : Node) : Node :=
  mkNode (node_id n) (node_labels n) (node_name n) d.

(** What is outside the repository and outside the statements modelled here:
    whether the driver library accepts a connection URI, and what the server
    does with a text that [read_set] and [read_labels] leave [Outside]: the
    graph it leaves (with the identifier it returns, for [CREATE]), or the
    message of the error it answers with. *)
Record Environment := mkEnvironment {
  driver_accepts : string → bool;
  run_set : string → nat → Db → Db + string;
  run_create : string → string → string → Db → (nat * Db) + string;
  run_merge : string → string → string → gmap string pyobj → Db → Db + string }.

Definition answer {A} (r : A + string) : result A :=
  match r with
  | inl a => Ok a
  | inr what => Raise (OtherException what)
  end.

(** [MATCH (n) WHERE elementId(n) = $node_id SET n:<text>]: for a list of
    names, labels are added to the node's label set and nothing else of the
    node changes. *)
Definition cypher_set_labels (ev : Environment) (text : string) (id : nat) (g : Db)
  : result Db :=
  match read_set text with
  | Labels ls =>
      Ok (mkDb (map (λ n, if decide (node_id n = id)
                          then add_labels (list_to_set ls) n else n) (nodes g))
               (edges g) (next_id g))
  | LabelsAndDescription ls d ls' =>
      Ok (mkDb (map (λ n, if decide (node_id n = id)
                          then add_labels (list_to_set ls')
                                 (set_description d (add_labels (list_to_set ls) n))
                          else n) (nodes g))
               (edges g) (next_id g))
  | Refused => Raise CypherSyntaxError
  | Outside => answer (run_set ev text id g)
  end.

(** [CREATE (n:<text> {name: $name, description: $description})
    RETURN elementId(n) AS node_id] *)
Definition cypher_create (ev : Environment) (text nm desc : string) (g : Db)
  : result (nat * Db) :=
  match read_labels text with
  | Labels ls =>
      Ok (next_id g,
          mkDb (nodes g ++ [mkNode (next_id g) (list_to_set ls) nm desc])
               (edges g) (S (next_id g)))
  | Refused => Raise CypherSyntaxError
  | _ => answer (run_create ev text nm desc g)
  end.

(** [SET r += $attributes]: every key of the supplied map is written over the
    stored one; a key supplied with [None] (Cypher's [null]) is removed; keys
    that are not supplied are kept. *)
Definition set_plus (cur new : gmap string pyobj) : gmap string pyobj :=
  merge (λ n c, match n with
                | Some PyNone => None
                | Some v => Some v
                | None => c
                end) new cur.

Definition edge_is (s t : nat) (ty : string) (e : Edge) : bool :=
  bool_decide (edge_src e = s ∧ edge_tgt e = t ∧ edge_type e = ty).

Definition set_edge_attrs (m : gmap string pyobj) (e : Edge) : Edge :=
  mkEdge (edge_src e) (edge_tgt e) (edge_type e) (set_plus (edge_attrs e) m).

(** [MERGE (source)-[r:`T`]->(target) SET r += $attributes] for one pair of
    matched nodes: the edges of that type between the two nodes are reused,
    and one is created when there is none. *)
Definition merge_edge (ty : string) (m : gmap string pyobj)
    (es : list Edge) (row : nat * nat) : list Edge :=
  if existsb (edge_is row.1 row.2 ty) es
  then map (λ e, if edge_is row.1 row.2 ty e then set_edge_attrs m e else e) es
  else (es ++ [mkEdge row.1 row.2 ty (set_plus ∅ m)])%list.

(** The whole relationship statement:
    [MATCH (source) WHERE source.name = $source_entity_name
     MATCH (target) WHERE target.name = $target_entity_name
     MERGE (source)-[r:`T`]->(target)  SET r += $attributes].
    The merge runs once for every pair of a matched source and a matched
    target; without such a pair nothing happens. *)
Definition cypher_merge_rel (ty src tgt : string) (m : gmap string pyobj)
    (g : Db) : Db :=
  let rows := list_prod (cypher_match_name src g) (cypher_match_name tgt g) in
  mkDb (nodes g) (foldl (merge_edge ty m) (edges g) rows) (next_id g).

(** The keys of the supplied map are names of properties, which the server
    stores under the rule for names. *)
Definition stored_keys (m : gmap string pyobj) : Prop :=
  map_Forall (λ k _, stored_name k = true) m.

(** The statement with the text that stands for the type in its pattern
    [[r:<text>]]: one name that the server stores is the type. *)
Definition cypher_merge (ev : Environment) (text src tgt : string)
    (m : gmap string pyobj) (g : Db) : result Db :=
  match read_labels text with
  | Labels [ty] =>
      if bool_decide (stored_keys m) then Ok (cypher_merge_rel ty src tgt m g)
      else Raise CypherSyntaxError
  | Refused => Raise CypherSyntaxError
  | _ => answer (run_merge ev text src tgt m g)
  end.

(** [MATCH p = (n)-[*]->(m) ORDER BY length(p) DESC LIMIT 3
    RETURN [node in nodes(p) | node.name] AS nodeNames, length(p)]:
    the directed paths of one or more edges that use no edge twice, the longest
    first (paths of equal length in the order in which they are found). *)
Definition path := list (nat * Edge).    (* edges with their position in the store *)

Definition indexed_edges (g : Db) : list (nat * Edge) :=
  zip (seq 0 (length (edges g))) (edges g).

Definition extend (ies : list (nat * Edge)) (p : path) : list path :=
  match last p with
  | None => []
  | Some (_, e) =>
      map (λ ie, (p ++ [ie])%list)
          (filter (λ ie : nat * Edge, edge_src ie.2 = edge_tgt e ∧ ie.1 ∉ p.*1) ies)
  end.

(** the paths of [S k] edges *)
Fixpoint paths_of_length (ies : list (nat * Edge)) (k : nat) : list path :=
  match k with
  | 0 => map (λ ie, [ie]) ies
  | S k' => concat (map (extend ies) (paths_of_length ies k'))
  end.

(** [node.name] of the node with a given identifier *)
Definition name_of (g : Db) (id : nat) : option string :=
  node_name <$> head (filter (λ n, node_id n = id) (nodes g)).

Definition path_names (g : Db) (p : path) : list string :=
  match p with
  | [] => []
  | (_, e) :: _ =>
      default "" (name_of g (edge_src e))
      :: map (λ ie : nat * Edge, default "" (name_of g (edge_tgt ie.2))) p
  end.

Definition cypher_longest_paths (g : Db) : list (list string) :=
  let ies := indexed_edges g in
  map (path_names g)
      (take 3 (concat (map (paths_of_length ies) (rev (seq 0 (length ies)))))).

(** ** The world: client, server, caller's objects, logger *)

Inductive Level := DEBUG | INFO | WARNING | ERROR.

(** The messages of the two modules; the interpolated values are the
    constructor arguments. *)
Inductive Message :=
| Connected                                  (* "Successfully connected to Neo4j." *)
| ConnectFailed (e : exn)                    (* "Failed to connect to Neo4j: {e}" *)
| VerifyFailed (e : exn)                     (* "Failed to verify connection to Neo4j: {e}" *)
| DriverClosed                               (* "Neo4j driver closed." *)
| AlreadyClosed                              (* "Neo4j driver already closed or not initialized." *)
| FetchedNames (n : nat)                     (* "Fetched {len(names)} node names from Neo4j." *)
| NodeNames (names : list string)            (* "Node names: {names}" *)
| QueryNamesFailed (e : exn)                 (* "Error querying node names from Neo4j: {e}" *)
| NodeExists (nm : string) (id : nat)        (* "Node with name '..' already exists (ID: ..). Merging labels." *)
| NodeCreated (nm : string) (id : nat)       (* "Created node for '..' with Neo4j ID: .." *)
| CreateNodeFailed (nm : string) (e : exn)   (* "Error creating Neo4j node for entity '..': {e}" *)
| ExecutingQuery (rel_type : string)         (* "Executing Neo4j query: {query}" *)
| RelMerged (ty src tgt : string)            (* "Created/merged relationship: .. between entities .. and .." *)
| CreateRelFailed (e : exn)                  (* "Error creating Neo4j relationship: {e}" *)
| LongestQuery                               (* "query: {query}" *)
| LongestFound (n : nat)                     (* "Longest path found with {len(node_ids)} nodes." *)
| LongestIds (ids : list (list string))      (* "Node IDs along the longest path: {node_ids}" *)
| NoPathFound                                (* "No path found in the graph." *)
| LongestFailed (e : exn)                    (* "Error finding the longest path in Neo4j: {e}" *)
| Unhandled (e : exn)                        (* "Unhandled exception during knowledge graph generation process." *)
| Finished.                                  (* "Application finished." *)

(** The driver object: all that is observed of it is how often its own
    [close()] ran. *)
Record Driver := mkDriver { close_calls : nat }.

Record World := mkWorld {
  _driver : option Driver;              (* [self._driver] *)
  server_up : bool;                     (* does the server answer this client:
                                           it is reached and takes the
                                           credentials *)
  graph : Db;                           (* the graph the server stores *)
  heap : gmap nat Relationship;         (* the caller's [Relationship] objects *)
  logs : list (Level * Message);
  stdout : list string;
  env : Environment }.

Definition set_driver (d : option Driver) (w : World) : World :=
  mkWorld d (server_up w) (graph w) (heap w) (logs w) (stdout w) (env w).
Definition set_graph (g : Db) (w : World) : World :=
  mkWorld (_driver w) (server_up w) g (heap w) (logs w) (stdout w) (env w).
Definition set_heap (h : gmap nat Relationship) (w : World) : World :=
  mkWorld (_driver w) (server_up w) (graph w) h (logs w) (stdout w) (env w).
Definition add_log (r : Level * Message) (w : World) : World :=
  mkWorld (_driver w) (server_up w) (graph w) (heap w) (logs w ++ [r]) (stdout w) (env w).
Definition add_stdout (s : string) (w : World) : World :=
  mkWorld (_driver w) (server_up w) (graph w) (heap w) (logs w) (stdout w ++ [s]) (env w).

(** State and exceptions: a computation returns or raises, and leaves a
    world behind in both cases. *)
Definition M (A : Type) : Type := World → result A * World.

#[global] Instance M_ret : MRet M := λ A a w, (Ok a, w).
#[global] Instance M_bind : MBind M := λ A B f m w,
  match m w with
  | (Ok a, w') => f a w'
  | (Raise e, w') => (Raise e, w')
  end.

Definition raise {A} (e : exn) : M A := λ w, (Raise e, w).

(** [try: body  except Exception as e: handler] *)
Definition try_except {A} (body : M A) (handler : exn → M A) : M A := λ w,
  match body w with
  | (Raise e, w') => if is_Exception e then handler e w' else (Raise e, w')
  | ok => ok
  end.

(** [try: body  finally: fin] *)
Definition try_finally {A} (body : M A) (fin : M unit) : M A := λ w,
  let (r, w') := body w in
  match fin w' with
  | (Ok _, w'') => (r, w'')
  | (Raise e, w'') => (Raise e, w'')
  end.

Definition log (l : Level) (m : Message) : M unit := λ w, (Ok (), add_log (l, m) w).
Definition print (s : string) : M unit := λ w, (Ok (), add_stdout s w).

(** Reading and assigning the fields of the object behind a reference. *)
Definition load (l : nat) : M Relationship := λ w,
  match heap w !! l with
  | Some r => (Ok r, w)
  | None => (Raise ReferenceError, w)
  end.
Definition store (l : nat) (r : Relationship) : M unit := λ w,
  (Ok (), set_heap (<[l := r]> (heap w)) w).

(** [self._driver.session()]: needs a driver, and one that is not closed
    (the driver library refuses a closed driver in its later versions and only
    warns in earlier ones; the first is taken here). *)
Definition session : M unit := λ w,
  match _driver w with
  | None => (Raise AttributeError, w)
  | Some d => if bool_decide (close_calls d = 0) then (Ok (), w) else (Raise DriverError, w)
  end.

(** [session.execute_write(fn, ...)] and [session.execute_read(fn)]: the
    function runs in a transaction on a reachable server; when it raises, the
    transaction is rolled back (what Python did to its own objects stays). *)
Definition run_transaction {A} (fn : M A) : M A := λ w,
  if server_up w then
    match fn w with
    | (Raise e, w') => (Raise e, set_graph (graph w) w')
    | ok => ok
    end
  else (Raise ServiceUnavailable, w).

Definition execute_write {A} (fn : M A) : M A := run_transaction fn.
Definition execute_read {A} (fn : M A) : M A := run_transaction fn.

(** [session.run("RETURN 1").consume()] *)
Definition run_return_1 : M unit := λ w,
  if server_up w then (Ok (), w) else (Raise ServiceUnavailable, w).

(** [tx.run(...)] for each statement *)
Definition tx_match_name (nm : string) : M (option nat) := λ w,
  (Ok (head (cypher_match_name nm (graph w))), w).       (* [.single()] *)

Definition tx_set_labels (text : string) (id : nat) : M unit := λ w,
  match cypher_set_labels (env w) text id (graph w) with
  | Ok g => (Ok (), set_graph g w)
  | Raise e => (Raise e, w)
  end.

Definition tx_create (text nm desc : string) : M nat := λ w,
  match cypher_create (env w) text nm desc (graph w) with
  | Ok (id, g) => (Ok id, set_graph g w)
  | Raise e => (Raise e, w)
  end.

Definition tx_merge_rel (text src tgt : string) (m : gmap string pyobj) : M unit := λ w,
  match cypher_merge (env w) text src tgt m (graph w) with
  | Ok g => (Ok (), set_graph g w)
  | Raise e => (Raise e, w)
  end.

Definition tx_names : M (list string) := λ w, (Ok (map node_name (nodes (graph w))), w).

Definition tx_longest_paths : M (list (list string)) := λ w,
  (Ok (cypher_longest_paths (graph w)), w).

(** ** [class Neo4jClient] *)

(** [verify_connection]: runs [RETURN 1]; logs and re-raises on failure. *)
Definition verify_connection : M unit :=
  try_except
    (session;; run_return_1)
    (λ e, log ERROR (VerifyFailed e);; raise e).

Definition driver_close : M unit := λ w,
  match _driver w with
  | Some d => (Ok (), set_driver (Some (mkDriver (S (close_calls d)))) w)
  | None => (Raise AttributeError, w)
  end.

(** [GraphDatabase.driver(uri, auth=(user, password))]: the library parses
    the URI and raises its configuration error for one it does not accept; it
    does not contact the server.  The driver keeps the credentials for its
    sessions: whether the server takes them is part of [server_up]. *)
Definition ConfigurationError : exn := OtherException "ConfigurationError".

Definition GraphDatabase_driver (uri user password : string) : M Driver := λ w,
  if driver_accepts (env w) uri then (Ok (mkDriver 0), w)
  else (Raise ConfigurationError, w).

(** [__init__] *)
Definition Neo4jClient_init (uri user password : string) : M unit :=
  (λ w, (Ok (), set_driver None w));;
  try_except
    (d ← GraphDatabase_driver uri user password;
     (λ w, (Ok (), set_driver (Some d) w));;
     verify_connection;;
     log INFO Connected)
    (λ e, log ERROR (ConnectFailed e);;
          (λ w, match _driver w with
                | Some _ => driver_close w
                | None => (Ok (), w)
                end);;
          raise e).

(** [close] *)
Definition close : M unit := λ w,
  match _driver w with
  | Some _ => (driver_close;; log INFO DriverClosed) w
  | None => log WARNING AlreadyClosed w
  end.

(** [query_node_names] *)
Definition query_node_names : M (list string) :=
  try_except
    (session;;
     names ← execute_read tx_names;
     log INFO (FetchedNames (length names));;
     log DEBUG (NodeNames names);;
     mret names)
    (λ e, log ERROR (QueryNamesFailed e);; mret []).

(** [create_node]; [None] is Python's [None]. *)
Definition _create_node_tx (entity_data : Entity) : M nat :=
  let category_labels := category_labels (category entity_data) in
  result ← tx_match_name (name entity_data);
  match result with
  | Some node_id =>
      log INFO (NodeExists (name entity_data) node_id);;
      tx_set_labels category_labels node_id;;
      mret node_id
  | None =>
      node_id ← tx_create category_labels (name entity_data) (description entity_data);
      log INFO (NodeCreated (name entity_data) node_id);;
      mret node_id
  end.

Definition create_node (entity : Entity) : M (option nat) :=
  try_except
    (session;;
     node_id ← execute_write (_create_node_tx entity);
     mret (Some node_id))
    (λ e, log ERROR (CreateNodeFailed (name entity) e);; mret None).

(** [create_relationship]; the argument is a reference to the caller's
    object. *)
Fixpoint remove_char (c : Ascii.ascii) (s : string) : string :=
  match s with
  | EmptyString => EmptyString
  | String a s' =>
      if Ascii.eqb a c then remove_char c s' else String a (remove_char c s')
  end.

(** [relation_type.replace(backquote, "").replace(double quote, "").replace(single quote, "")] *)
Definition sanitize (ty : string) : string :=
  remove_char single_quote (remove_char double_quote (remove_char backquote ty)).

Definition set_attributes (a : attributes_t) (r : Relationship) : Relationship :=
  mkRelationship (source_entity_name r) (target_entity_name r) (relation_type r) a.

(** The driver packs an integer in 64 bits and raises [OverflowError] for one
    that does not fit, before anything is sent. *)
Definition int64 (z : Z) : bool := ((- 2 ^ 63 <=? z) && (z <? 2 ^ 63))%Z.

Definition packs (v : pyobj) : bool :=
  match v with
  | PyInt z => int64 z
  | _ => true
  end.

Definition OverflowError : exn := OtherException "OverflowError".

(** the supplied [$attributes] parameter: a map, as the driver packs it *)
Definition as_parameter (a : attributes_t) : M (gmap string pyobj) :=
  match a with
  | Mapping d =>
      if bool_decide (map_Forall (λ _ v, packs v = true) d) then mret d
      else raise OverflowError
  | NonMapping _ => raise (OtherException "attributes is not a map")
  end.

Definition _create_relationship_tx (relationship_data : nat) : M unit :=
  r ← load relationship_data;
  match attributes r with
  | Mapping _ => mret ()
  | NonMapping v =>
      store relationship_data (set_attributes (Mapping {[ "stored_data" := v ]}) r)
  end;;
  r ← load relationship_data;
  let rel_type := sanitize (relation_type r) in
  log INFO (ExecutingQuery rel_type);;
  params ← as_parameter (attributes r);
  tx_merge_rel (quote_label rel_type)
    (source_entity_name r) (target_entity_name r) params;;
  log INFO (RelMerged (relation_type r) (source_entity_name r) (target_entity_name r)).

Definition create_relationship (relationship : nat) : M unit :=
  try_except
    (session;; execute_write (_create_relationship_tx relationship))
    (λ e, log ERROR (CreateRelFailed e)).

(** [find_longest_paths]; [None] is Python's [None]. *)
Definition _find_longest_path_tx : M (list (list string)) :=
  log INFO LongestQuery;;
  tx_longest_paths.

Definition find_longest_paths : M (option (list (list string))) :=
  try_except
    (session;;
     print "Running query..";;
     node_ids ← execute_read _find_longest_path_tx;
     match node_ids with
     | _ :: _ =>
         log INFO (LongestFound (length node_ids));;
         log DEBUG (LongestIds node_ids);;
         mret (Some node_ids)
     | [] =>
         log WARNING NoPathFound;;
         mret None
     end)
    (λ e, log ERROR (LongestFailed e);; mret None).

(** ** [application.main]: the guarded run *)

(** [sys.exit(code)] *)
Definition sys_exit {A} (code : Z) : M A := raise (SystemExit code).

(** Lines 46 to 54: [run] stands for
    [kg_generator.run_kg_generation_iterations(initial_prompt, max_iterations)],
    whose code is in another module.  The handler's [print] shows the
    exception after the text kept here. *)
Definition main_guarded (run : M unit) : M unit :=
  try_finally
    (try_except run
       (λ e, log ERROR (Unhandled e);;
             print "An unexpected error occurred";;
             sys_exit 2))
    (close;; log INFO Finished).

(** ** Well-formed inputs and stores *)

(** No category has a backquote: none closes its own quoting. *)
Definition quoted (cats : list string) : bool :=
  forallb (λ c, negb (mentions backquote c)) cats.

(** A category list that the quoting of [category_labels] carries intact and
    that the server stores: at least one category, no backquote in any, and
    none that is empty or has a null character. *)
Definition labels_ok (cats : list string) : bool :=
  match cats with
  | [] => false
  | _ => quoted cats && forallb stored_name cats
  end.

(** Attributes that the driver packs: every integer fits 64 bits. *)
Definition packable (d : gmap string pyobj) : Prop :=
  map_Forall (λ _ v, packs v = true) d.

(** The client can open a session and reach the server. *)
Definition usable (w : World) : Prop :=
  _driver w = Some (mkDriver 0) ∧ server_up w = true.


(** at most one node per name *)
Definition unique_names (g : Db) : Prop := NoDup (map node_name (nodes g)).


(** The nodes stored under a name, their labels, and the edges stored for a
    source name, a target name and a type. *)
Definition nodes_named (nm : string) (g : Db) : list Node :=
  filter (λ n, node_name n = nm) (nodes g).


Definition edges_between (src tgt ty : string) (g : Db) : list Edge :=
  filter (λ e, name_of g (edge_src e) = Some src
               ∧ name_of g (edge_tgt e) = Some tgt
               ∧ edge_type e = ty) (edges g).


(** The map that [create_relationship] hands to the store for an [attributes]
    value. *)
Definition stored_attributes (a : attributes_t) : gmap string pyobj :=
  match a with
  | Mapping d => d
  | NonMapping v => {[ "stored_data" := v ]}
  end.

(** A relationship that reaches the store: the driver packs its attributes,
    and the server stores their keys and the type as sanitized. *)
Definition storable (r : Relationship) : Prop :=
  packable (stored_attributes (attributes r))
  ∧ stored_keys (stored_attributes (attributes r))
  ∧ stored_name (sanitize (relation_type r)) = true.

#[global] Instance storable_dec (r : Relationship) : Decision (storable r).
Proof. unfold storable, packable, stored_keys. apply _. Defined.


(** ** The graphs after a statement, the properties as the specification
    words them, and sample worlds *)


(** The graph after [SET n:... SET n.description = '...' SET n:...] on node
    [id]. *)
Definition described (ls : list string) (d : string) (ls' : list string)
    (id : nat) (g : Db) : Db :=
  mkDb (map (λ n, if decide (node_id n = id)
                  then add_labels (list_to_set ls')
                         (set_description d (add_labels (list_to_set ls) n))
                  else n) (nodes g))
       (edges g) (next_id g).

(** A category that closes its own quoting: between the backquotes that the
    client puts around it, it reads as the label [A], a clause that sets the
    description to [d], and the label [B]. *)
Definition overwriting (d : string) : string :=
  "A` SET n.description = '" ++ d ++ "' SET n:`B".

(** A text that a string literal holds as it is: no single quote, no
    backslash and no null character. *)
Definition plain (d : string) : bool :=
  negb (mentions single_quote d) && negb (mentions backslash d)
  && negb (mentions nul d).

Definition created (ls : list string) (nm desc : string) (g : Db) : Db :=
  mkDb (nodes g ++ [mkNode (next_id g) (list_to_set ls) nm desc])
       (edges g) (S (next_id g)).

(** The property of two successive calls for one name, as the specification
    words it: one node for the name afterwards, the same identifier from both
    calls, and the union of the two category lists as the node's labels. *)
Definition dedup_as_specified (e1 e2 : Entity) (w : World) : Prop :=
  ∃ id w1 w2 n,
    create_node e1 w = (Ok (Some id), w1)
    ∧ create_node e2 w1 = (Ok (Some id), w2)
    ∧ nodes_named (name e1) (graph w2) = [n]
    ∧ node_labels n = list_to_set (category e1) ∪ list_to_set (category e2).

(** The environment of the sample worlds: the driver library takes the URI
    schemes of Bolt and of Neo4j, and the server answers every text that is
    outside the modelled statements with a syntax error (the samples send it
    no such text). *)
Definition known_scheme (uri : string) : bool :=
  existsb (λ p, String.prefix p uri)
    ["bolt://"; "bolt+s://"; "bolt+ssc://"; "neo4j://"; "neo4j+s://"; "neo4j+ssc://"].

Definition sample_environment : Environment :=
  mkEnvironment known_scheme
    (λ _ _ _, inr "SyntaxError") (λ _ _ _ _, inr "SyntaxError")
    (λ _ _ _ _ _, inr "SyntaxError").

(** A client on a store that already holds Paris, labelled Landmark. *)
Definition paris_world : World :=
  mkWorld (Some (mkDriver 0)) true
          (mkDb [mkNode 0 {[ "Landmark" ]} "Paris" "The city of Paris"] [] 1)
          ∅ [] [] sample_environment.

Definition paris_city : Entity := mkEntity "Paris" "A city" ["City"].
Definition paris_overwritten : Entity :=
  mkEntity "Paris" "A city" [overwriting "pwned"].
Definition paris_capital : Entity := mkEntity "Paris" "A capital" ["Capital"].

Definition empty_world : World :=
  mkWorld (Some (mkDriver 0)) true empty_db ∅ [] [] sample_environment.

Definition paris_unlabelled : Entity := mkEntity "Paris" "A city" [].


(** The object after the fallback for attributes that are not a map. *)
Definition normalized (r : Relationship) : Relationship :=
  set_attributes (Mapping (stored_attributes (attributes r))) r.

(** The graph after the relationship statement for [r]. *)
Definition merged (r : Relationship) (g : Db) : Db :=
  cypher_merge_rel (sanitize (relation_type r))
    (source_entity_name r) (target_entity_name r)
    (stored_attributes (attributes r)) g.

(** The property of two successive calls for one triple, as the specification
    words it: one edge for the triple afterwards, whose attributes are those
    of the first relationship with those of the second laid over them. *)
Definition merge_as_specified (l1 l2 : nat) (w : World) : Prop :=
  ∃ r1 r2 w1 w2 e,
    heap w !! l1 = Some r1 ∧ heap w !! l2 = Some r2
    ∧ create_relationship l1 w = (Ok (), w1)
    ∧ create_relationship l2 w1 = (Ok (), w2)
    ∧ edges_between (source_entity_name r1) (target_entity_name r1)
        (sanitize (relation_type r1)) (graph w2) = [e]
    ∧ edge_attrs e
      = stored_attributes (attributes r2) ∪ stored_attributes (attributes r1).

Definition capital_1789 : Relationship :=
  mkRelationship "Paris" "France" "capital_of" (Mapping {[ "since" := PyInt 1789 ]}).
Definition capital_1792 : Relationship :=
  mkRelationship "Paris" "France" "capital_of" (Mapping {[ "since" := PyInt 1792 ]}).

(** A client on a store that already holds the edge from Paris to France,
    with an attribute of its own; the caller holds two relationship objects. *)
Definition france_world : World :=
  mkWorld (Some (mkDriver 0)) true
          (mkDb [mkNode 0 {[ "City" ]} "Paris" ""; mkNode 1 {[ "Country" ]} "France" ""]
                [mkEdge 0 1 "capital_of" {[ "source" := PyStr "atlas" ]}] 2)
          {[ 0%nat := capital_1789; 1%nat := capital_1792 ]} [] [] sample_environment.




(** The answer the specification words: an empty sequence. *)
Definition returns_empty_sequence (w : World) : Prop :=
  ∃ w', find_longest_paths w = (Ok (Some []), w').

(** The behaviour the specification words: the call raises. *)
Definition raises (e : Entity) (w : World) : Prop :=
  ∃ x w', create_node e w = (Raise x, w').

Definition unreachable_world : World :=
  mkWorld (Some (mkDriver 0)) false empty_db ∅ [] [] sample_environment.

(** What the caller of [main] sees for an outcome of the run: an [Exception]
    becomes [sys.exit(2)], anything else passes. *)
Definition surfaced (r : result unit) : result unit :=
  match r with
  | Ok _ => Ok ()
  | Raise e => if is_Exception e then Raise (SystemExit 2) else Raise e
  end.

(** The caller holds a relationship between two names that are not stored,
    and one whose attributes are not a map. *)
Definition adrift : Relationship :=
  mkRelationship "Atlantis" "Lemuria" "near" (NonMapping (PyStr "legend")).

Definition adrift_world : World :=
  mkWorld (Some (mkDriver 0)) true
          (mkDb [mkNode 0 {[ "City" ]} "Paris" ""] [] 1)
          {[ 7%nat := adrift ]} [] [] sample_environment.

(** The same caller, with the server down. *)
Definition adrift_dark_world : World :=
  mkWorld (Some (mkDriver 0)) false
          (mkDb [mkNode 0 {[ "City" ]} "Paris" ""] [] 1)
          {[ 7%nat := adrift ]} [] [] sample_environment.

(** The reassignment as the specification words it: after the call, an object
    whose attributes were not a map holds the map with the key
    [stored_data]. *)
Definition reassigned_as_specified (l : nat) (w : World) : Prop :=
  ∀ r v, heap w !! l = Some r → attributes r = NonMapping v →
    ∃ w', create_relationship l w = (Ok (), w')
          ∧ heap w' !! l
            = Some (set_attributes (Mapping {[ "stored_data" := v ]}) r).

(** A run that raises an [Exception]. *)
Definition failing_run : M unit := raise (OtherException "extraction failed").

(** ** [application.main], whole *)

(** [ValueError], and [try: body  except ValueError: handler]. *)
Definition ValueError : exn := OtherException "ValueError".

Definition is_ValueError (e : exn) : bool :=
  match e with
  | OtherException what => String.eqb what "ValueError"
  | _ => false
  end.

Definition try_except_ValueError {A} (body : M A) (handler : M A) : M A := λ w,
  match body w with
  | (Raise e, w') => if is_ValueError e then handler w' else (Raise e, w')
  | ok => ok
  end.

Definition usage : string :=
  "Usage: python knowledge_graph_generation.py <prompt> <iterations>".
Definition iterations_error : string :=
  "Error: Iterations must be a positive integer.".

(** The collaborators of [main] that live in other modules or in Python
    itself: [bootstrap] stands for lines 19 to 25 ([load_dotenv()],
    [Settings()], [configure_logging], [getLogger]), [int] for Python's
    [int(str)] with [None] for its [ValueError], the three [neo4j_] strings
    for the fields of [SETTINGS] that the store client is given, the three
    [_init] for the constructors of the other clients, and
    [run_kg_generation_iterations] for the generator's loop. *)
Section application.
Variable bootstrap : M unit.
Variable int : string → option Z.
Variable neo4j_uri neo4j_user neo4j_password : string.
Variable OpenAIClient_init : M unit.
Variable Embedder_init : M unit.
Variable KnowledgeGraphGenerator_init : M unit.
Variable run_kg_generation_iterations : string → Z → M unit.

(** [main], with [sys.argv] as its argument. *)
Definition main (argv : list string) : M unit :=
  bootstrap;;
  if decide (length argv < 3)%nat then print usage;; sys_exit 1
  else
    let initial_prompt := nth 1 argv "" in
    max_iterations ←
      try_except_ValueError
        (max_iterations ← match int (nth 2 argv "") with
                          | Some n => mret n
                          | None => raise ValueError
                          end;
         if decide (max_iterations ≤ 0)%Z then raise ValueError
         else mret max_iterations)
        (print iterations_error;; sys_exit 1);
    OpenAIClient_init;;
    Neo4jClient_init neo4j_uri neo4j_user neo4j_password;;
    Embedder_init;;
    KnowledgeGraphGenerator_init;;
    main_guarded (run_kg_generation_iterations initial_prompt max_iterations).
(** the arguments are accepted and the first client is constructed *)
Definition accepted (argv : list string) (n : Z) (w w1 : World) : Prop :=
  ∃ w0, bootstrap w = (Ok (), w0)
        ∧ (3 ≤ length argv)%nat
        ∧ int (nth 2 argv "") = Some n ∧ (0 < n)%Z
        ∧ OpenAIClient_init w0 = (Ok (), w1).

End application.

(** ** Sequences of calls on one client *)

Inductive call :=
| CreateNode (e : Entity)
| CreateRelationship (l : nat)
| QueryNodeNames
| FindLongestPaths
| Close.

(** The world after a call, whatever it returned. *)
Definition perform (c : call) (w : World) : World :=
  match c with
  | CreateNode e => (create_node e w).2
  | CreateRelationship l => (create_relationship l w).2
  | QueryNodeNames => (query_node_names w).2
  | FindLongestPaths => (find_longest_paths w).2
  | Close => (close w).2
  end.

Definition perform_all (cs : list call) (w : World) : World :=
  foldl (λ w c, perform c w) w cs.



(** ** Stripping the quotes, in the specification's words *)

Definition is_quote (c : Ascii.ascii) : bool :=
  Ascii.eqb c backquote || Ascii.eqb c double_quote || Ascii.eqb c single_quote.

(** The characters of [s] that are not quotes, in their order. *)
Fixpoint without_quotes (s : string) : string :=
  match s with
  | EmptyString => EmptyString
  | String a s' =>
      if is_quote a then without_quotes s' else String a (without_quotes s')
  end.

(** ** More sample worlds *)

(** The caller holds an object for the edge from Paris to France; nothing is
    stored yet. *)
Definition fresh_world : World :=
  mkWorld (Some (mkDriver 0)) true empty_db {[ 0%nat := capital_1789 ]} [] []
          sample_environment.

Definition paris : Entity := mkEntity "Paris" "The capital of France" ["City"; "Capital"].

(** A world before the client is constructed, with the server up and down. *)
Definition unborn_world : World :=
  mkWorld None true empty_db ∅ [] [] sample_environment.
Definition unborn_dark_world : World :=
  mkWorld None false empty_db ∅ [] [] sample_environment.

(** A URI that the driver library of the samples accepts, and one without
    scheme, which it refuses. *)
Definition bolt_uri : string := "bolt://localhost:7687".
Definition bare_uri : string := "localhost:7687".

(** Sample arguments and collaborators for [main]. *)
Definition int_of_digit (s : string) : option Z :=
  if decide (s = "2") then Some 2%Z
  else if decide (s = "0") then Some 0%Z
  else None.

Definition argv_two : list string :=
  ["knowledge_graph_generation.py"; "Describe Paris"; "2"].
Definition argv_zero : list string :=
  ["knowledge_graph_generation.py"; "Describe Paris"; "0"].

Definition idle : M unit := mret ().
Definition broken_constructor : M unit :=
  raise (OtherException "embedding model not found").
Definition sample_run : string → Z → M unit := λ _ _, failing_run.

(** * Properties *)

(** ** The statements on small graphs *)

Example read_labels_two :
  read_labels (category_labels ["City"; "Capital"]) = Labels ["City"; "Capital"].
Proof. reflexivity. Qed.

Example read_labels_none : read_labels (category_labels []) = Refused.
Proof. reflexivity. Qed.

Example read_labels_empty_name : read_labels (category_labels [""]) = Refused.
Proof. reflexivity. Qed.

Example read_set_description :
  read_set (category_labels ["A` SET n.description = 'pwned' SET n:`B"])
  = LabelsAndDescription ["A"] "pwned" ["B"].
Proof. reflexivity. Qed.

Example longest_paths_chain :
  cypher_longest_paths
    (mkDb [mkNode 0 ∅ "a" ""; mkNode 1 ∅ "b" ""; mkNode 2 ∅ "c" ""]
          [mkEdge 0 1 "r" ∅; mkEdge 1 2 "r" ∅] 3)
  = [["a"; "b"; "c"]; ["a"; "b"]; ["b"; "c"]].
Proof. vm_compute. reflexivity. Qed.

(** ** The label text *)

Lemma append_nil (t : string) : "" ++ t = t.
Proof. reflexivity. Qed.

Lemma append_cons (a : Ascii.ascii) (s t : string) :
  String a s ++ t = String a (s ++ t).
Proof. reflexivity. Qed.

Lemma append_snoc (s : string) (c : Ascii.ascii) (t : string) :
  snoc_char s c ++ t = s ++ String c t.
Proof.
  unfold snoc_char. induction s as [|a s IH]; [done|].
  by rewrite !append_cons, IH.
Qed.

Lemma append_empty_r (s : string) : s ++ "" = s.
Proof. induction s as [|a s IH]; [done|]. by rewrite append_cons, IH. Qed.

Lemma append_assoc (s t u : string) : (s ++ t) ++ u = s ++ (t ++ u).
Proof. induction s as [|a s IH]; [done|]. by rewrite !append_cons, IH. Qed.

(** Inside a name the scanner reads up to the closing backquote. *)
Lemma scan_name (c acc : string) (seen : list string) (rest : string) :
  mentions backquote c = false →
  scan (Inside acc) seen (c ++ String backquote rest)
  = scan (Closed (acc ++ c)) seen rest.
Proof.
  revert acc. induction c as [|a c IH]; intros acc Hc.
  - by rewrite append_nil, append_empty_r.
  - simpl in Hc. apply orb_false_iff in Hc as [Ha Hc].
    rewrite append_cons. simpl. rewrite Ha, IH by done. by rewrite append_snoc.
Qed.

Lemma scan_quoted (c : string) (seen : list string) (rest : string) :
  mentions backquote c = false →
  scan Start seen (quote_label c ++ rest) = scan (Closed c) seen rest.
Proof.
  intros Hc.
  change (quote_label c ++ rest) with (String backquote ((c ++ "`") ++ rest)).
  rewrite append_assoc.
  change ("`" ++ rest) with (String backquote rest).
  simpl. by rewrite scan_name.
Qed.

Lemma scan_concat (cats : list string) (seen : list string) :
  cats ≠ [] →
  quoted cats = true →
  scan Start seen (String.concat ":" (map quote_label cats))
  = Some ((rev seen ++ cats)%list, "").
Proof.
  unfold quoted.
  revert seen. induction cats as [|c cats IH]; intros seen Hne Hall; [done|].
  simpl in Hall. apply andb_true_iff in Hall as [Hc Hall].
  apply negb_true_iff in Hc.
  destruct cats as [|c' cats].
  - change (String.concat ":" (map quote_label [c])) with (quote_label c).
    rewrite <- (append_empty_r (quote_label c)).
    by rewrite scan_quoted.
  - change (String.concat ":" (map quote_label (c :: c' :: cats)))
      with (quote_label c ++ String colon (String.concat ":" (map quote_label (c' :: cats)))).
    rewrite scan_quoted by done.
    change (scan (Closed c) seen (String colon ?r)) with (scan Start (c :: seen) r).
    rewrite IH by done. simpl. by rewrite <- app_assoc.
Qed.

Lemma category_labels_cons (c : string) (cats : list string) :
  ∃ t, category_labels (c :: cats) = String backquote t.
Proof. destruct cats; eexists; reflexivity. Qed.

(** The text built from categories without backquote is a list of names:
    the categories. *)
Lemma read_quoted_labels (cats : list string) :
  cats ≠ [] →
  quoted cats = true →
  read_labels (category_labels cats) = checked cats (Labels cats).
Proof.
  intros Hne Hq. destruct cats as [|c cats]; [done|].
  destruct (category_labels_cons c cats) as (t & Ht).
  unfold read_labels. rewrite Ht, <- Ht.
  unfold category_labels. by rewrite scan_concat.
Qed.

(** The text built for a good category list is read back as that list. *)
Lemma read_category_labels (cats : list string) :
  labels_ok cats = true → read_labels (category_labels cats) = Labels cats.
Proof.
  intros Hok. destruct cats as [|c cats]; [done|].
  unfold labels_ok in Hok. apply andb_true_iff in Hok as [Hq Hst].
  rewrite read_quoted_labels by done. unfold checked. by rewrite Hst.
Qed.


(** The text built for no category is refused. *)
Lemma read_no_category : read_labels (category_labels []) = Refused.
Proof. reflexivity. Qed.

(** A text that is a list of names is read in [SET n:...] as elsewhere. *)
Lemma read_set_labels (text : string) :
  read_labels text ≠ Outside → read_set text = read_labels text.
Proof.
  unfold read_set, read_labels. destruct text as [|a text]; [done|].
  by destruct (scan Start [] (String a text)) as [[ls [|b rest]]|].
Qed.


(** ** What one call does to the world *)

Ltac unfold_monad :=
  unfold try_except, try_finally, execute_write, execute_read, run_transaction,
    run_return_1, session, log, print, raise, sys_exit,
    load, store, tx_match_name, tx_set_labels, tx_create, tx_merge_rel,
    tx_names, tx_longest_paths, driver_close, mbind, M_bind, mret, M_ret in *.

Ltac split_world w :=
  let n := fresh "n" in
  let up := fresh "up" in
  destruct w as [[[n]|] up ? ? ? ? ?]; simpl in *;
    [case_bool_decide; simpl in *; [subst n; destruct up; simpl in *|]|].

(** [create_node] always returns, whatever the entity and the world, and
    leaves the client, the caller's objects and the environment alone. *)
Lemma create_node_returns (e : Entity) (w : World) :
  ∃ r w', create_node e w = (Ok r, w')
    ∧ _driver w' = _driver w ∧ server_up w' = server_up w
    ∧ heap w' = heap w ∧ env w' = env w.
Proof.
  unfold create_node, _create_node_tx. unfold_monad.
  unfold cypher_set_labels, cypher_create, answer.
  split_world w.
  2-4: by eexists _, _.
  destruct (cypher_match_name (name e) _) as [|id ids]; simpl.
  - destruct (read_labels _) as [ls|ls d ls'| |]; simpl;
      try destruct (run_create _ _ _ _ _) as [[]|]; simpl; by eexists _, _.
  - destruct (read_set _) as [ls|ls d ls'| |]; simpl;
      try destruct (run_set _ _ _ _) as [|]; simpl; by eexists _, _.
Qed.


Lemma usable_inv (w : World) :
  usable w →
  ∃ g h lg out ev, w = mkWorld (Some (mkDriver 0)) true g h lg out ev.
Proof.
  destruct w as [d up g h lg out ev]. intros [Hd Hup]; simpl in *; subst.
  by exists g, h, lg, out, ev.
Qed.


(** On a usable client, a name that is not stored gets a new node. *)
Lemma create_node_creates (e : Entity) (w : World) (ls : list string) :
  usable w →
  cypher_match_name (name e) (graph w) = [] →
  read_labels (category_labels (category e)) = Labels ls →
  ∃ w', create_node e w = (Ok (Some (next_id (graph w))), w')
        ∧ usable w' ∧ heap w' = heap w
        ∧ graph w' = created ls (name e) (description e) (graph w).
Proof.
  intros (g & h & lg & out & ev & ->)%usable_inv Hm Hp; simpl in *.
  unfold create_node, _create_node_tx. unfold_monad. unfold cypher_create.
  simpl. rewrite Hm; simpl. rewrite Hp; simpl.
  eexists; split; [reflexivity|]. by repeat split.
Qed.

(** When the label text is refused, the call returns [None] and the graph is
    what it was. *)
Lemma create_node_refused (e : Entity) (w : World) :
  read_labels (category_labels (category e)) = Refused →
  ∃ w', create_node e w = (Ok None, w') ∧ graph w' = graph w.
Proof.
  intros Hp.
  assert (Hs : read_set (category_labels (category e)) = Refused).
  { rewrite read_set_labels; by rewrite Hp. }
  unfold create_node, _create_node_tx. unfold_monad.
  unfold cypher_set_labels, cypher_create.
  split_world w.
  2-4: by eexists.
  rewrite Hp, Hs.
  destruct (cypher_match_name (name e) _) as [|id ids]; simpl; by eexists.
Qed.

(** ** Lists without duplicates under a key *)

Section keyed.
Context {A K : Type} `{EqDecision K} (key : A → K).



Lemma filter_key_map (f : A → A) (k : K) (l : list A) :
  (∀ a, key (f a) = key a) →
  filter (λ x, key x = k) (map f l) = map f (filter (λ x, key x = k) l).
Proof.
  intros Hf. induction l as [|a l IH]; [done|].
  simpl. rewrite !filter_cons, Hf.
  destruct (decide (key a = k)); simpl; by rewrite IH.
Qed.
End keyed.

(** ** The graph after a label merge and after a creation *)





Lemma cypher_match_name_nodes (nm : string) (g : Db) :
  cypher_match_name nm g = map node_id (nodes_named nm g).
Proof. reflexivity. Qed.

(** ** Creating a node twice *)


(** C1, on the code.  When the two entities have no category, both calls
    return [None] and the graph is what it was, whatever the world: for a new
    name no node is stored, and no identifier is returned.  What the
    specification words for the two calls does not hold, as soon as the first
    entity has no category. *)
Theorem create_node_twice_no_category (e1 e2 : Entity) (w : World) :
  category e1 = [] →
  category e2 = [] →
  ∃ w1 w2,
    create_node e1 w = (Ok None, w1)
    ∧ create_node e2 w1 = (Ok None, w2)
    ∧ graph w2 = graph w
    ∧ ¬ dedup_as_specified e1 e2 w.
Proof.
  intros Hc1 Hc2.
  destruct (create_node_refused e1 w) as (w1 & Hrun1 & Hg1); [by rewrite Hc1|].
  destruct (create_node_refused e2 w1) as (w2 & Hrun2 & Hg2); [by rewrite Hc2|].
  exists w1, w2. do 2 (split; [done|]). split; [by rewrite Hg2|].
  intros (id & w1' & w2' & n & H1 & _). congruence.
Qed.

(** A store that already holds the name with a label of its own keeps that
    label: after the two calls Paris carries Landmark, City and Capital. *)
Lemma dedup_keeps_stored_label :
  usable paris_world ∧ unique_names (graph paris_world)
  ∧ name paris_city = name paris_capital
  ∧ ¬ dedup_as_specified paris_city paris_capital paris_world.
Proof.
  split; [done|]. split; [repeat constructor; set_solver|]. split; [done|].
  intros (id & w1 & w2 & n & H1 & H2 & Hn & Hl).
  vm_compute in H1. injection H1 as <- <-.
  vm_compute in H2. injection H2 as <-.
  vm_compute in Hn. injection Hn as <-.
  apply (f_equal (λ s : gset string, bool_decide ("Landmark" ∈ s))) in Hl.
  vm_compute in Hl. discriminate.
Qed.

(** ** Creating a node for a new name *)

(** For a name that is not stored and a good category list, the call stores
    one more node with the entity's name, description and categories and
    returns its identifier. *)
Lemma create_node_fresh (e : Entity) (w : World) :
  usable w →
  nodes_named (name e) (graph w) = [] →
  labels_ok (category e) = true →
  ∃ w', create_node e w = (Ok (Some (next_id (graph w))), w')
        ∧ nodes (graph w')
          = (nodes (graph w)
             ++ [mkNode (next_id (graph w)) (list_to_set (category e))
                        (name e) (description e)])%list
        ∧ edges (graph w') = edges (graph w).
Proof.
  intros Hu Hnone Hok%read_category_labels.
  destruct (create_node_creates e w (category e) Hu) as (w' & Hrun & _ & _ & Hg);
    [by rewrite cypher_match_name_nodes, Hnone | done |].
  exists w'. by rewrite Hg.
Qed.

(** C4, on the code.  For an entity without categories, whether its name is
    stored or not and whatever the state of client and server, [create_node]
    returns [None] and the stored graph is what it was: no node is created. *)
Theorem create_node_no_category (e : Entity) (w : World) :
  category e = [] →
  ∃ w', create_node e w = (Ok None, w') ∧ graph w' = graph w.
Proof.
  intros Hc. apply (create_node_refused e w).
  by rewrite Hc.
Qed.

(** An entity without categories, for a name that is not stored, on a usable
    client: the text [CREATE (n: {name: ...})] is refused, the call logs the
    error, returns [None] and stores no node. *)
Example create_node_without_category :
  create_node paris_unlabelled empty_world
  = (Ok None,
     add_log (ERROR, CreateNodeFailed "Paris" CypherSyntaxError) empty_world).
Proof. reflexivity. Qed.

(** ** Creating a node for a stored name *)




Lemma break_at_plain (c : Ascii.ascii) (d rest : string) :
  mentions c d = false → break_at c (d ++ String c rest) = Some (d, rest).
Proof.
  induction d as [|a d IH]; intros Hd.
  - rewrite append_nil. simpl. by rewrite Ascii.eqb_refl.
  - simpl in Hd. apply orb_false_iff in Hd as [Ha Hd].
    rewrite append_cons. simpl. by rewrite Ha, IH.
Qed.

(** Between the client's backquotes the category [overwriting d] is read as
    a label, the clause that sets the description, and a label. *)
Lemma read_set_overwriting (d : string) :
  plain d = true →
  read_set (category_labels [overwriting d])
  = LabelsAndDescription ["A"] d ["B"].
Proof.
  unfold plain. intros [[Hq Hb]%andb_true_iff _]%andb_true_iff.
  apply negb_true_iff in Hq, Hb.
  change (category_labels [overwriting d])
    with ("`" ++ ("A` SET n.description = '" ++ d ++ "' SET n:`B") ++ "`").
  rewrite !append_assoc.
  change ("' SET n:`B" ++ "`") with (String single_quote " SET n:`B`").
  unfold read_set. rewrite !append_cons, !append_nil. simpl.
  rewrite break_at_plain by done. simpl. by rewrite Hb.
Qed.

Lemma nodes_named_described (nm : string) (ls : list string) (d : string)
    (ls' : list string) (id : nat) (g : Db) :
  nodes_named nm (described ls d ls' id g)
  = map (λ n, if decide (node_id n = id)
              then add_labels (list_to_set ls')
                     (set_description d (add_labels (list_to_set ls) n))
              else n)
        (nodes_named nm g).
Proof.
  unfold nodes_named, described; simpl.
  apply (filter_key_map node_name). intros a. by destruct (decide _).
Qed.

(** C7, on the code.  The client puts each category between backquotes and
    leaves the backquotes of the category as they are.  For a stored name and
    the one category [overwriting d], the text after [SET n:] is the label
    [A], a clause that sets the description and the label [B]: the call
    returns the identifier of the stored node, and the node now has the
    description [d] in the place of its own. *)
Theorem create_node_existing_overwrites_description
    (e : Entity) (d : string) (w : World) (n : Node) :
  usable w →
  head (nodes_named (name e) (graph w)) = Some n →
  category e = [overwriting d] →
  plain d = true →
  ∃ w', create_node e w = (Ok (Some (node_id n)), w')
        ∧ graph w' = described ["A"] d ["B"] (node_id n) (graph w)
        ∧ node_description <$> head (nodes_named (name e) (graph w')) = Some d.
Proof.
  intros (g & h & lg & out & ev & ->)%usable_inv Hn Hc Hd; simpl in *.
  assert (Hm : head (cypher_match_name (name e) g) = Some (node_id n)).
  { rewrite cypher_match_name_nodes.
    destruct (nodes_named (name e) g); simplify_eq/=; done. }
  unfold create_node, _create_node_tx. unfold_monad. unfold cypher_set_labels.
  simpl. rewrite Hm; simpl. rewrite Hc, (read_set_overwriting d Hd); simpl.
  eexists; split; [reflexivity|]. split; [done|].
  change (mkDb _ (edges g) (next_id g)) with (described ["A"] d ["B"] (node_id n) g).
  change (graph (set_graph ?g' _)) with g'.
  rewrite nodes_named_described.
  destruct (nodes_named (name e) g) as [|n0 ns]; simplify_eq/=.
  by rewrite decide_True.
Qed.

(** ** Creating a relationship *)

Lemma normalized_mapping (r : Relationship) (d : gmap string pyobj) :
  attributes r = Mapping d → normalized r = r.
Proof. destruct r as [s t ty a]; simpl. by intros ->. Qed.

Lemma sanitize_without_quotes (ty : string) : sanitize ty = without_quotes ty.
Proof.
  unfold sanitize. induction ty as [|a ty IH]; [done|].
  simpl. unfold is_quote.
  destruct (Ascii.eqb a backquote); simpl; [done|].
  destruct (Ascii.eqb a double_quote); simpl; [done|].
  destruct (Ascii.eqb a single_quote); simpl; [done|]. by rewrite IH.
Qed.

Lemma without_quotes_mentions (c : Ascii.ascii) (s : string) :
  is_quote c = true → mentions c (without_quotes s) = false.
Proof.
  intros Hc. induction s as [|a s IH]; [done|].
  simpl. destruct (is_quote a) eqn:Ha; [done|].
  simpl. rewrite IH, orb_false_r.
  destruct (Ascii.eqb a c) eqn:Hac; [|done].
  apply Ascii.eqb_eq in Hac as ->. congruence.
Qed.

Lemma sanitize_mentions (c : Ascii.ascii) (ty : string) :
  is_quote c = true → mentions c (sanitize ty) = false.
Proof. intros Hc. rewrite sanitize_without_quotes. by apply without_quotes_mentions. Qed.

Lemma quote_label_cons (c : string) : quote_label c = String backquote (c ++ "`").
Proof. reflexivity. Qed.

(** The text that stands for the type in the [MERGE] pattern is one name, the
    sanitized type. *)
Lemma read_sanitized (ty : string) :
  read_labels (quote_label (sanitize ty))
  = checked [sanitize ty] (Labels [sanitize ty]).
Proof.
  unfold read_labels.
  rewrite (quote_label_cons (sanitize ty)), <- (quote_label_cons (sanitize ty)).
  rewrite <- (append_empty_r (quote_label (sanitize ty))).
  rewrite scan_quoted; [done|]. by apply sanitize_mentions.
Qed.

Lemma cypher_merge_sanitized (ev : Environment) (ty src tgt : string)
    (m : gmap string pyobj) (g : Db) :
  cypher_merge ev (quote_label (sanitize ty)) src tgt m g
  = if stored_name (sanitize ty) && bool_decide (stored_keys m)
    then Ok (cypher_merge_rel (sanitize ty) src tgt m g)
    else Raise CypherSyntaxError.
Proof.
  unfold cypher_merge. rewrite read_sanitized. unfold checked. simpl.
  rewrite andb_true_r. by destruct (stored_name (sanitize ty)).
Qed.

Lemma normalized_stored (r : Relationship) :
  attributes (normalized r) = Mapping (stored_attributes (attributes r)).
Proof. by destruct r as [s t ty [d|v]]. Qed.

(** [create_relationship] always returns.  Either it leaves graph and objects
    alone, or the client is usable and the object has been normalized; the
    statement has then run when the relationship reaches the store, and the
    graph is what it was when it does not. *)
Lemma create_relationship_cases (l : nat) (w : World) :
  ∃ w', create_relationship l w = (Ok (), w')
    ∧ _driver w' = _driver w ∧ server_up w' = server_up w ∧ env w' = env w
    ∧ (((usable w → heap w !! l = None) ∧ graph w' = graph w ∧ heap w' = heap w)
       ∨ (∃ r, usable w ∧ heap w !! l = Some r ∧ usable w'
               ∧ heap w' = <[l := normalized r]> (heap w)
               ∧ graph w' = if decide (storable r) then merged r (graph w)
                            else graph w)).
Proof.
  unfold create_relationship, _create_relationship_tx. unfold_monad.
  split_world w.
  2: by eexists; split; [reflexivity|]; do 3 (split; [done|]); left;
       split; [intros [_ ?]|].
  2: by eexists; split; [reflexivity|]; do 3 (split; [done|]); left;
       split; [intros [[= ?] _]|].
  2: by eexists; split; [reflexivity|]; do 3 (split; [done|]); left;
       split; [intros [? _]|].
  destruct (_ !! l) as [r|] eqn:Hl; simpl.
  2: by eexists; split; [reflexivity|]; do 3 (split; [done|]); left.
  destruct r as [s t ty [d|v]]; simpl.
  - rewrite Hl; simpl. unfold as_parameter. unfold_monad.
    case_bool_decide as Hpack; simpl.
    + rewrite cypher_merge_sanitized.
      destruct (stored_name (sanitize ty)) eqn:Hname; simpl;
        [case_bool_decide as Hkeys; simpl|].
      * eexists; split; [reflexivity|]. do 3 (split; [done|]). right.
        exists (mkRelationship s t ty (Mapping d)).
        do 3 (split; [done|]). simpl. split; [by rewrite insert_id|].
        rewrite decide_True; [done | by repeat split].
      * eexists; split; [reflexivity|]. do 3 (split; [done|]). right.
        exists (mkRelationship s t ty (Mapping d)).
        do 3 (split; [done|]). simpl. split; [by rewrite insert_id|].
        rewrite decide_False; [done|]. by intros (_ & Hk & _).
      * eexists; split; [reflexivity|]. do 3 (split; [done|]). right.
        exists (mkRelationship s t ty (Mapping d)).
        do 3 (split; [done|]). simpl. split; [by rewrite insert_id|].
        rewrite decide_False; [done|]. intros (_ & _ & Hn); simpl in Hn. congruence.
    + eexists; split; [reflexivity|]. do 3 (split; [done|]). right.
      exists (mkRelationship s t ty (Mapping d)).
      do 3 (split; [done|]). simpl. split; [by rewrite insert_id|].
      rewrite decide_False; [done|]. by intros [Hp _].
  - rewrite lookup_insert_eq; simpl. unfold as_parameter. unfold_monad.
    case_bool_decide as Hpack; simpl.
    + rewrite cypher_merge_sanitized.
      destruct (stored_name (sanitize ty)) eqn:Hname; simpl;
        [case_bool_decide as Hkeys; simpl|].
      * eexists; split; [reflexivity|]. do 3 (split; [done|]). right.
        exists (mkRelationship s t ty (NonMapping v)).
        do 4 (split; [done|]). rewrite decide_True; [done | by repeat split].
      * eexists; split; [reflexivity|]. do 3 (split; [done|]). right.
        exists (mkRelationship s t ty (NonMapping v)).
        do 4 (split; [done|]).
        rewrite decide_False; [done|]. by intros (_ & Hk & _).
      * eexists; split; [reflexivity|]. do 3 (split; [done|]). right.
        exists (mkRelationship s t ty (NonMapping v)).
        do 4 (split; [done|]).
        rewrite decide_False; [done|]. intros (_ & _ & Hn); simpl in Hn. congruence.
    + eexists; split; [reflexivity|]. do 3 (split; [done|]). right.
      exists (mkRelationship s t ty (NonMapping v)).
      do 4 (split; [done|]).
      rewrite decide_False; [done|]. by intros [Hp _].
Qed.

(** On a usable client the object is normalized, and the statement runs when
    the relationship reaches the store. *)
Lemma create_relationship_normalizes (l : nat) (w : World) (r : Relationship) :
  usable w →
  heap w !! l = Some r →
  ∃ w', create_relationship l w = (Ok (), w')
        ∧ usable w'
        ∧ heap w' = <[l := normalized r]> (heap w)
        ∧ graph w' = if decide (storable r) then merged r (graph w) else graph w.
Proof.
  intros Hu Hl.
  destruct (create_relationship_cases l w) as (w' & Hrun & Hd & Hup & _ & Hcase).
  exists w'. split; [done|].
  destruct Hcase as [[Hnone _]|(r' & _ & Hl' & Hu' & Hh & Hg)].
  - specialize (Hnone Hu). congruence.
  - assert (r' = r) as -> by congruence. done.
Qed.





(** C10, counterexample.  With the server down the transaction does not
    start, and the object whose attributes are not a map is what it was after
    the call. *)
Lemma reassigned_as_specified_fails :
  heap adrift_dark_world !! 7%nat = Some adrift
  ∧ attributes adrift = NonMapping (PyStr "legend")
  ∧ ¬ reassigned_as_specified 7 adrift_dark_world.
Proof.
  do 2 (split; [done|]). intros Hspec.
  destruct (Hspec adrift (PyStr "legend")) as (w' & Hrun & Hl); [done..|].
  vm_compute in Hrun. injection Hrun as <-.
  vm_compute in Hl. discriminate.
Qed.

(** C10, as amended.  [create_relationship] returns; when the object's
    [attributes] are a map, no object is changed; when they are not and the
    client is usable, so that the transaction starts, the caller's object now
    holds the map with the single key [stored_data] and the former value,
    which the caller can tell from what it held before, and no other object
    is changed; when the server is down or the client holds no driver, no
    object is changed. *)
Theorem create_relationship_mutates_argument (l : nat) (w : World) (r : Relationship) :
  heap w !! l = Some r →
  ∃ w', create_relationship l w = (Ok (), w')
    ∧ (∀ d, attributes r = Mapping d → heap w' = heap w)
    ∧ (∀ v, attributes r = NonMapping v → usable w →
         heap w' = <[l := set_attributes (Mapping {[ "stored_data" := v ]}) r]> (heap w)
         ∧ heap w' !! l ≠ heap w !! l)
    ∧ (server_up w = false ∨ _driver w = None → heap w' = heap w).
Proof.
  intros Hl.
  destruct (create_relationship_cases l w) as (w' & Hrun & _ & _ & _ & Hcase).
  exists w'. split; [done|]. split; [|split].
  - intros d Hd. destruct Hcase as [(_ & _ & Hh)|(r' & _ & Hl' & _ & Hh & _)]; [done|].
    assert (r' = r) as -> by congruence.
    by rewrite Hh, (normalized_mapping r d), insert_id.
  - intros v Hv Hu.
    destruct (create_relationship_normalizes l w r Hu Hl) as (w'' & Hrun' & _ & Hh & _).
    assert (w'' = w') as -> by congruence.
    rewrite Hh. unfold normalized. rewrite Hv. split; [done|].
    rewrite lookup_insert_eq, Hl. intros [= Heq].
    apply (f_equal attributes) in Heq. simpl in Heq. by rewrite Hv in Heq.
  - intros Hoff. destruct Hcase as [(_ & _ & Hh)|(r' & [Hd Hup] & _)]; [done|].
    destruct Hoff; congruence.
Qed.

(** ** The edge of a triple *)












(** ** Creating a relationship twice *)




(** An edge that is stored before the two calls keeps the keys that the two
    relationships do not carry: the key [source] is still there afterwards. *)
Lemma merge_keeps_stored_key :
  usable france_world
  ∧ nodes_named "Paris" (graph france_world) ≠ []
  ∧ nodes_named "France" (graph france_world) ≠ []
  ∧ heap france_world !! 0%nat = Some capital_1789
  ∧ heap france_world !! 1%nat = Some capital_1792
  ∧ ¬ merge_as_specified 0 1 france_world.
Proof.
  do 5 (split; [done|]).
  intros (r1 & r2 & w1 & w2 & e & Hl1 & Hl2 & H1 & H2 & He & Ha).
  vm_compute in Hl1. injection Hl1 as <-.
  vm_compute in Hl2. injection Hl2 as <-.
  vm_compute in H1. injection H1 as <-.
  vm_compute in H2. injection H2 as <-.
  vm_compute in He. injection He as <-.
  apply (f_equal (λ m : gmap string pyobj, m !! "source")) in Ha.
  vm_compute in Ha. discriminate.
Qed.

(** ** The longest paths of a graph without edges *)

Lemma cypher_longest_paths_no_edge (g : Db) :
  edges g = [] → cypher_longest_paths g = [].
Proof. intros He. unfold cypher_longest_paths, indexed_edges. by rewrite He. Qed.

(** C5, counterexample.  On a usable client and the empty graph the call
    does not return the empty sequence. *)
Lemma returns_empty_sequence_fails :
  usable empty_world ∧ edges (graph empty_world) = []
  ∧ ¬ returns_empty_sequence empty_world.
Proof.
  do 2 (split; [done|]). intros (w' & Hrun). vm_compute in Hrun. discriminate.
Qed.

(** C5, as amended.  On a graph without edges [find_longest_paths] raises
    nothing and returns [None]; the graph is what it was; on a usable client
    the call logs the query and then the warning that no path was found. *)
Theorem find_longest_paths_no_edge (w : World) :
  edges (graph w) = [] →
  ∃ w', find_longest_paths w = (Ok None, w')
        ∧ graph w' = graph w
        ∧ (usable w →
           logs w' = (logs w ++ [(INFO, LongestQuery); (WARNING, NoPathFound)])%list).
Proof.
  intros He. unfold find_longest_paths, _find_longest_path_tx. unfold_monad.
  destruct w as [[[n]|] up g h lg out ev]; simpl in *;
    [case_bool_decide; simpl; [destruct up; simpl|]|].
  - rewrite cypher_longest_paths_no_edge by done. simpl.
    eexists; split; [reflexivity|]. split; [done|]. intros _. simpl.
    by rewrite <- app_assoc.
  - eexists; split; [reflexivity|]. split; [done|]. by intros [_ ?].
  - eexists; split; [reflexivity|]. split; [done|]. intros [[= ->] _]. done.
  - eexists; split; [reflexivity|]. split; [done|]. by intros [? _].
Qed.

(** ** An unreachable store *)

(** C6, counterexample.  With the server down, [create_node] does not
    raise. *)
Lemma raises_fails :
  server_up unreachable_world = false ∧ ¬ raises paris_city unreachable_world.
Proof.
  split; [done|]. intros (x & w' & Hrun). vm_compute in Hrun. discriminate.
Qed.

(** C6, as amended.  When the server cannot be reached, [create_node] raises
    nothing: it logs one error that names the entity and returns [None], and
    graph, driver and objects are what they were. *)
Theorem create_node_unreachable (e : Entity) (w : World) :
  server_up w = false →
  ∃ x, create_node e w
       = (Ok None, add_log (ERROR, CreateNodeFailed (name e) x) w).
Proof.
  intros Hup. unfold create_node, _create_node_tx. unfold_monad.
  destruct w as [[[n]|] up g h lg out ev]; simpl in *; subst up;
    [case_bool_decide; simpl|]; by eexists.
Qed.

(** [create_node] never raises, whatever the world. *)
Lemma create_node_never_raises (e : Entity) (w : World) : ¬ raises e w.
Proof.
  intros (x & w' & Hrun).
  destruct (create_node_returns e w) as (r & w'' & Hrun' & _). congruence.
Qed.

(** ** Closing *)

(** [close] never raises. *)
Lemma close_returns (w : World) : ∃ w', close w = (Ok (), w').
Proof. unfold close. unfold_monad. destruct (_driver w); by eexists. Qed.

(** With a driver, [close] closes it and logs that at level INFO; the client
    keeps the driver. *)
Lemma close_with_driver (w : World) (d : Driver) :
  _driver w = Some d →
  close w = (Ok (), add_log (INFO, DriverClosed)
                      (set_driver (Some (mkDriver (S (close_calls d)))) w)).
Proof. intros Hd. unfold close. unfold_monad. by rewrite Hd. Qed.

(** C9, on the code.  On a client that holds a driver, a first and a second
    [close] both return; the second closes the driver once more and logs the
    same INFO record as the first, and no warning is logged. *)
Theorem close_twice (w : World) (d : Driver) :
  _driver w = Some d →
  ∃ w1 w2,
    close w = (Ok (), w1) ∧ close w1 = (Ok (), w2)
    ∧ _driver w2 = Some (mkDriver (S (S (close_calls d))))
    ∧ logs w2 = (logs w ++ [(INFO, DriverClosed); (INFO, DriverClosed)])%list.
Proof.
  intros Hd. eexists _, _.
  split; [by apply close_with_driver|].
  split; [by apply close_with_driver|].
  split; [done|]. simpl. by rewrite <- app_assoc.
Qed.

(** ** The guarded run *)

(** C8.  Whatever the run does, returning or raising, [main_guarded] passes
    through [close] on the client as the run left it, and only then gives
    the caller the outcome; when the client still holds its driver, that
    driver is closed once more and the INFO record of the closing is in the
    log. *)
Theorem main_guarded_closes (run : M unit) (w : World) (r : result unit) (w1 : World) :
  run w = (r, w1) →
  ∃ w2 w3,
    _driver w2 = _driver w1
    ∧ close w2 = (Ok (), w3)
    ∧ main_guarded run w = (surfaced r, add_log (INFO, Finished) w3)
    ∧ ∀ d, _driver w1 = Some d →
           _driver w3 = Some (mkDriver (S (close_calls d)))
           ∧ (INFO, DriverClosed) ∈ logs w3.
Proof.
  intros Hrun.
  set (w2 := match r with
             | Raise e =>
                 if is_Exception e
                 then add_stdout "An unexpected error occurred"
                        (add_log (ERROR, Unhandled e) w1)
                 else w1
             | Ok _ => w1
             end).
  assert (Hd2 : _driver w2 = _driver w1).
  { subst w2. destruct r as [[]|e]; [done|]. by destruct (is_Exception e). }
  destruct (close_returns w2) as (w3 & Hclose).
  exists w2, w3. split; [done|]. split; [done|]. split.
  - unfold main_guarded, try_finally, try_except. rewrite Hrun.
    destruct r as [[]|e]; simpl.
    + unfold mbind, M_bind. subst w2. by rewrite Hclose.
    + destruct (is_Exception e) eqn:He; simpl.
      * unfold sys_exit, raise, log, print, mbind, M_bind. simpl.
        subst w2. rewrite ?He in Hclose. by rewrite Hclose.
      * unfold mbind, M_bind. subst w2. rewrite ?He in Hclose. by rewrite Hclose.
  - intros d Hd. rewrite <- Hd2 in Hd.
    rewrite (close_with_driver w2 d Hd) in Hclose. injection Hclose as <-.
    split; [done|]. simpl. apply elem_of_app. right. by left.
Qed.

(** ** The invariants of the store are kept *)









(** ** The theorems at concrete inputs *)






Lemma create_node_twice_no_category_witness :
  ∃ w1 w2,
    create_node paris_unlabelled empty_world = (Ok None, w1)
    ∧ create_node paris_unlabelled w1 = (Ok None, w2)
    ∧ graph w2 = graph empty_world
    ∧ ¬ dedup_as_specified paris_unlabelled paris_unlabelled empty_world.
Proof.
  apply (create_node_twice_no_category paris_unlabelled paris_unlabelled empty_world);
    reflexivity.
Defined.

Lemma create_node_existing_overwrites_description_witness :
  ∃ w', create_node paris_overwritten paris_world = (Ok (Some 0), w')
        ∧ graph w'
          = described ["A"] "pwned" ["B"] 0 (graph paris_world)
        ∧ node_description <$> head (nodes_named "Paris" (graph w')) = Some "pwned".
Proof.
  apply (create_node_existing_overwrites_description paris_overwritten "pwned"
           paris_world (mkNode 0 {[ "Landmark" ]} "Paris" "The city of Paris"));
    [by split | reflexivity..].
Defined.


Lemma create_relationship_mutates_argument_witness :
  ∃ w', create_relationship 7 adrift_world = (Ok (), w')
    ∧ (∀ d, attributes adrift = Mapping d → heap w' = heap adrift_world)
    ∧ (∀ v, attributes adrift = NonMapping v → usable adrift_world →
         heap w' = <[7%nat := set_attributes (Mapping {[ "stored_data" := v ]}) adrift]>
                     (heap adrift_world)
         ∧ heap w' !! 7%nat ≠ heap adrift_world !! 7%nat)
    ∧ (server_up adrift_world = false ∨ _driver adrift_world = None →
       heap w' = heap adrift_world).
Proof.
  apply (create_relationship_mutates_argument 7 adrift_world adrift). reflexivity.
Defined.


Lemma find_longest_paths_no_edge_witness :
  ∃ w', find_longest_paths empty_world = (Ok None, w')
        ∧ graph w' = graph empty_world
        ∧ (usable empty_world →
           logs w' = (logs empty_world
                      ++ [(INFO, LongestQuery); (WARNING, NoPathFound)])%list).
Proof. apply (find_longest_paths_no_edge empty_world). reflexivity. Defined.

Lemma create_node_unreachable_witness :
  ∃ x, create_node paris_city unreachable_world
       = (Ok None, add_log (ERROR, CreateNodeFailed "Paris" x) unreachable_world).
Proof. apply (create_node_unreachable paris_city unreachable_world). reflexivity. Defined.

Lemma close_twice_witness :
  ∃ w1 w2,
    close empty_world = (Ok (), w1) ∧ close w1 = (Ok (), w2)
    ∧ _driver w2 = Some (mkDriver 2)
    ∧ logs w2 = [(INFO, DriverClosed); (INFO, DriverClosed)].
Proof. apply (close_twice empty_world (mkDriver 0)). reflexivity. Defined.

Lemma main_guarded_closes_witness :
  ∃ w2 w3,
    _driver w2 = _driver empty_world
    ∧ close w2 = (Ok (), w3)
    ∧ main_guarded failing_run empty_world
      = (Raise (SystemExit 2), add_log (INFO, Finished) w3)
    ∧ ∀ d, _driver empty_world = Some d →
           _driver w3 = Some (mkDriver (S (close_calls d)))
           ∧ (INFO, DriverClosed) ∈ logs w3.
Proof.
  apply (main_guarded_closes failing_run empty_world
           (Raise (OtherException "extraction failed")) empty_world).
  reflexivity.
Defined.

Lemma create_node_no_category_witness :
  ∃ w', create_node paris_unlabelled empty_world = (Ok None, w')
        ∧ graph w' = graph empty_world.
Proof. apply (create_node_no_category paris_unlabelled empty_world). reflexivity. Defined.

(** * Further properties of the client and of the application *)

(** ** The relationship type *)

(** X1.  [sanitize] removes every backquote, double quote and single quote of
    the relationship type and keeps all other characters, in their order. *)
Theorem sanitize_strips_quotes (ty : string) : sanitize ty = without_quotes ty.
Proof. apply sanitize_without_quotes. Qed.


Lemma without_quotes_clean (s : string) :
  (∀ c, is_quote c = true → mentions c s = false) → without_quotes s = s.
Proof.
  induction s as [|a s IH]; intros Hs; [done|].
  simpl. destruct (is_quote a) eqn:Ha.
  - specialize (Hs a Ha). simpl in Hs. by rewrite Ascii.eqb_refl in Hs.
  - f_equal. apply IH. intros c Hc. specialize (Hs c Hc). simpl in Hs.
    by apply orb_false_iff in Hs as [_ ?].
Qed.

(** X3.  A relationship type without backquote, double quote and single quote
    is used as it is. *)
Theorem sanitize_keeps_clean_type (ty : string) :
  (∀ c, is_quote c = true → mentions c ty = false) → sanitize ty = ty.
Proof. intros Hty. rewrite sanitize_without_quotes. by apply without_quotes_clean. Qed.

(** X4.  Sanitizing twice is sanitizing once. *)
Theorem sanitize_idempotent (ty : string) : sanitize (sanitize ty) = sanitize ty.
Proof.
  rewrite (sanitize_without_quotes (sanitize ty)).
  apply without_quotes_clean. intros c Hc. by apply sanitize_mentions.
Qed.

Lemma is_quote_cases (c : Ascii.ascii) :
  is_quote c = true → c = backquote ∨ c = double_quote ∨ c = single_quote.
Proof.
  unfold is_quote. intros [[H|H]%orb_true_iff|H]%orb_true_iff;
    apply Ascii.eqb_eq in H; auto.
Qed.

Lemma sanitize_keeps_clean_type_witness :
  sanitize "capital_of" = "capital_of".
Proof.
  apply (sanitize_keeps_clean_type "capital_of").
  intros c [->|[->| ->]]%is_quote_cases; reflexivity.
Defined.

(** ** The label text *)



(** ** More on [create_node] *)














(** ** More on [create_relationship] *)
















(** ** [query_node_names] *)

Lemma query_node_names_cases (w : World) :
  ∃ ns w', query_node_names w = (Ok ns, w')
    ∧ graph w' = graph w ∧ heap w' = heap w
    ∧ (usable w → ns = map node_name (nodes (graph w)))
    ∧ (server_up w = false → ns = []).
Proof.
  unfold query_node_names. unfold_monad.
  destruct w as [[[n]|] up g h lg out ev]; simpl;
    [case_bool_decide; simpl; [destruct up; simpl|]|].
  - eexists _, _. split; [reflexivity|]. do 2 (split; [done|]). by split.
  - eexists _, _. split; [reflexivity|]. do 2 (split; [done|]).
    split; [by intros [_ ?]|done].
  - eexists _, _. split; [reflexivity|]. do 2 (split; [done|]).
    split; [|done]. intros [[= ->] _]. done.
  - eexists _, _. split; [reflexivity|]. do 2 (split; [done|]).
    split; [by intros [? _]|done].
Qed.

(** X13.  [query_node_names] raises nothing and changes neither the graph nor
    the caller's objects.  On a usable client it returns the name of every
    stored node, in store order; when the server cannot be reached it returns
    the empty list, as it does for an empty graph. *)
Theorem query_node_names_result (w : World) :
  ∃ ns w', query_node_names w = (Ok ns, w')
    ∧ graph w' = graph w ∧ heap w' = heap w
    ∧ (usable w → ns = map node_name (nodes (graph w)))
    ∧ (server_up w = false → ns = []).
Proof. apply query_node_names_cases. Qed.




(** ** The constructor *)

Lemma Neo4jClient_init_up (uri user password : string) (w : World) :
  driver_accepts (env w) uri = true →
  server_up w = true →
  ∃ w', Neo4jClient_init uri user password w = (Ok (), w')
        ∧ usable w'
        ∧ graph w' = graph w
        ∧ logs w' = (logs w ++ [(INFO, Connected)])%list.
Proof.
  intros Hacc Hup.
  unfold Neo4jClient_init, verify_connection, GraphDatabase_driver. unfold_monad.
  destruct w as [d up g h lg out ev]; simpl in *; subst up. rewrite Hacc. simpl.
  eexists. split; [reflexivity|]. by repeat split.
Qed.

Lemma Neo4jClient_init_down (uri user password : string) (w : World) :
  driver_accepts (env w) uri = true →
  server_up w = false →
  ∃ w', Neo4jClient_init uri user password w = (Raise ServiceUnavailable, w')
        ∧ _driver w' = Some (mkDriver 1)
        ∧ graph w' = graph w
        ∧ logs w' = (logs w ++ [(ERROR, VerifyFailed ServiceUnavailable);
                                (ERROR, ConnectFailed ServiceUnavailable)])%list.
Proof.
  intros Hacc Hup.
  unfold Neo4jClient_init, verify_connection, GraphDatabase_driver. unfold_monad.
  destruct w as [d up g h lg out ev]; simpl in *; subst up. rewrite Hacc. simpl.
  eexists. split; [reflexivity|]. repeat split. simpl. by rewrite <- app_assoc.
Qed.

Lemma Neo4jClient_init_refused (uri user password : string) (w : World) :
  driver_accepts (env w) uri = false →
  ∃ w', Neo4jClient_init uri user password w = (Raise ConfigurationError, w')
        ∧ _driver w' = None
        ∧ graph w' = graph w
        ∧ logs w' = (logs w ++ [(ERROR, ConnectFailed ConfigurationError)])%list.
Proof.
  intros Hacc.
  unfold Neo4jClient_init, verify_connection, GraphDatabase_driver. unfold_monad.
  destruct w as [d up g h lg out ev]; simpl in *. rewrite Hacc. simpl.
  eexists. split; [reflexivity|]. by repeat split.
Qed.

(** X15.  When the driver library accepts the URI and the server answers,
    the constructor returns and leaves a usable client, whatever the client
    held before; the graph is untouched and the success is logged. *)
Theorem Neo4jClient_init_connects (uri user password : string) (w : World) :
  driver_accepts (env w) uri = true →
  server_up w = true →
  ∃ w', Neo4jClient_init uri user password w = (Ok (), w')
        ∧ usable w'
        ∧ graph w' = graph w
        ∧ logs w' = (logs w ++ [(INFO, Connected)])%list.
Proof. apply Neo4jClient_init_up. Qed.

(** X16.  When the driver library refuses the URI or the server does not
    answer, the constructor raises and the graph is untouched.  For a refused
    URI it raises the library's exception, holds no driver, closes nothing
    and logs the failed connection.  For an accepted URI it raises the
    store's exception after closing, once, the driver it had opened, and logs
    the failed verification and the failed connection. *)
Theorem Neo4jClient_init_fails (uri user password : string) (w : World) :
  driver_accepts (env w) uri = false ∨ server_up w = false →
  ∃ e w', Neo4jClient_init uri user password w = (Raise e, w')
    ∧ graph w' = graph w
    ∧ if driver_accepts (env w) uri
      then e = ServiceUnavailable
           ∧ _driver w' = Some (mkDriver 1)
           ∧ logs w' = (logs w ++ [(ERROR, VerifyFailed ServiceUnavailable);
                                   (ERROR, ConnectFailed ServiceUnavailable)])%list
      else e = ConfigurationError
           ∧ _driver w' = None
           ∧ logs w' = (logs w ++ [(ERROR, ConnectFailed ConfigurationError)])%list.
Proof.
  intros Hfail. destruct (driver_accepts (env w) uri) eqn:Hacc.
  - destruct Hfail as [?|Hup]; [done|].
    destruct (Neo4jClient_init_down uri user password w Hacc Hup)
      as (w' & Hrun & Hd & Hg & Hlg).
    by exists ServiceUnavailable, w'.
  - destruct (Neo4jClient_init_refused uri user password w Hacc)
      as (w' & Hrun & Hd & Hg & Hlg).
    by exists ConfigurationError, w'.
Qed.

Lemma Neo4jClient_init_connects_witness :
  ∃ w', Neo4jClient_init bolt_uri "neo4j" "secret" unborn_world = (Ok (), w')
        ∧ usable w'
        ∧ graph w' = graph unborn_world
        ∧ logs w' = [(INFO, Connected)].
Proof.
  apply (Neo4jClient_init_connects bolt_uri "neo4j" "secret" unborn_world);
    reflexivity.
Defined.

Lemma Neo4jClient_init_fails_witness :
  ∃ e w', Neo4jClient_init bare_uri "neo4j" "secret" unborn_world = (Raise e, w')
    ∧ graph w' = graph unborn_world
    ∧ e = ConfigurationError
    ∧ _driver w' = None
    ∧ logs w' = [(ERROR, ConnectFailed ConfigurationError)].
Proof.
  apply (Neo4jClient_init_fails bare_uri "neo4j" "secret" unborn_world).
  left. reflexivity.
Defined.

(** ** [find_longest_paths] *)

Lemma extend_nonempty (ies : list (nat * Edge)) (p : path) :
  Forall (λ q : path, q ≠ []) (extend ies p).
Proof.
  unfold extend. destruct (last p) as [[i e]|]; [|constructor].
  apply Forall_fmap, Forall_forall. intros ie _. simpl. by destruct p.
Qed.

Lemma paths_of_length_nonempty (ies : list (nat * Edge)) (k : nat) :
  Forall (λ q : path, q ≠ []) (paths_of_length ies k).
Proof.
  destruct k as [|k]; simpl.
  - apply Forall_fmap, Forall_forall. by intros ie _.
  - apply Forall_concat, Forall_fmap, Forall_forall. intros p _.
    apply extend_nonempty.
Qed.

Lemma path_names_length (g : Db) (p : path) :
  p ≠ [] → (2 ≤ length (path_names g p))%nat.
Proof.
  destruct p as [|[i e] p]; [done|]. intros _. simpl. rewrite length_map. lia.
Qed.

Lemma cypher_longest_paths_shape (g : Db) :
  (length (cypher_longest_paths g) ≤ 3)%nat
  ∧ Forall (λ p, (2 ≤ length p)%nat) (cypher_longest_paths g).
Proof.
  unfold cypher_longest_paths. split.
  - rewrite length_map, length_take. lia.
  - apply Forall_fmap, Forall_take, Forall_concat, Forall_fmap, Forall_forall.
    intros k _. eapply Forall_impl; [apply paths_of_length_nonempty|].
    intros p Hp. simpl. by apply path_names_length.
Qed.

Lemma cypher_longest_paths_some_edge (g : Db) :
  edges g ≠ [] → cypher_longest_paths g ≠ [].
Proof.
  intros He. unfold cypher_longest_paths.
  assert (Hies : indexed_edges g ≠ []).
  { unfold indexed_edges. destruct (edges g); [done|]. simpl. done. }
  destruct (indexed_edges g) as [|ie ies] eqn:Hi; [done|].
  assert (Hin : In [ie] (concat (map (paths_of_length (ie :: ies))
                                     (rev (seq 0 (length (ie :: ies))))))).
  { apply in_concat. exists (paths_of_length (ie :: ies) 0). split.
    - apply in_map, in_rev. rewrite rev_involutive. apply in_seq. simpl. lia.
    - simpl. by left. }
  intros Hnil. apply fmap_nil_inv in Hnil.
  destruct (concat _) as [|p ps]; [done|]. discriminate.
Qed.

(** X17.  [find_longest_paths] raises nothing and leaves the graph as it
    is.  What it returns is [None] or a list that is not empty: at most three
    paths, each naming at least two nodes. *)
Theorem find_longest_paths_shape (w : World) :
  ∃ r w', find_longest_paths w = (Ok r, w')
    ∧ graph w' = graph w
    ∧ ∀ ps, r = Some ps →
        ps ≠ [] ∧ (length ps ≤ 3)%nat ∧ Forall (λ p, (2 ≤ length p)%nat) ps.
Proof.
  unfold find_longest_paths, _find_longest_path_tx. unfold_monad.
  destruct w as [[[n]|] up g h lg out ev]; simpl;
    [case_bool_decide; simpl; [destruct up; simpl|]|].
  2-4: by eexists _, _; split; [reflexivity|]; split.
  destruct (cypher_longest_paths_shape g) as [Hlen Hall].
  destruct (cypher_longest_paths g) as [|p ps] eqn:Hps; simpl.
  - eexists _, _. split; [reflexivity|]. by split.
  - eexists _, _. split; [reflexivity|]. split; [done|].
    intros ps' [= <-]. by repeat split.
Qed.

(** X18.  On a usable client and a graph with at least one edge,
    [find_longest_paths] returns a list of paths, not [None]. *)
Theorem find_longest_paths_some_edge (w : World) :
  usable w →
  edges (graph w) ≠ [] →
  ∃ ps w', find_longest_paths w = (Ok (Some ps), w') ∧ ps ≠ [].
Proof.
  intros (g & h & lg & out & ev & ->)%usable_inv He. simpl in He.
  apply cypher_longest_paths_some_edge in He.
  unfold find_longest_paths, _find_longest_path_tx. unfold_monad. simpl.
  destruct (cypher_longest_paths g) as [|p ps] eqn:Hps; [done|]. simpl.
  by eexists _, _.
Qed.

Lemma find_longest_paths_some_edge_witness :
  ∃ ps w', find_longest_paths france_world = (Ok (Some ps), w') ∧ ps ≠ [].
Proof. apply (find_longest_paths_some_edge france_world); [split|]; done. Defined.

(** ** Any sequence of calls *)














(** ** [main] *)

Lemma main_guarded_run (run : M unit) (w : World) (r : result unit) (w1 : World) :
  run w = (r, w1) →
  ∃ w2 w3, _driver w2 = _driver w1
           ∧ close w2 = (Ok (), w3)
           ∧ main_guarded run w = (surfaced r, add_log (INFO, Finished) w3).
Proof.
  intros Hrun. unfold main_guarded, try_finally, try_except. rewrite Hrun.
  destruct r as [[]|e]; simpl.
  - destruct (close_returns w1) as (w3 & Hclose).
    exists w1, w3. do 2 (split; [done|]).
    unfold mbind, M_bind. by rewrite Hclose.
  - destruct (is_Exception e) eqn:He; simpl.
    + unfold sys_exit, raise, log, print, mbind, M_bind. simpl.
      destruct (close_returns
                  (add_stdout "An unexpected error occurred"
                     (add_log (ERROR, Unhandled e) w1))) as (w3 & Hclose).
      eexists _, w3. split; [|split; [exact Hclose|]]; [done|].
      by rewrite Hclose.
    + destruct (close_returns w1) as (w3 & Hclose).
      exists w1, w3. do 2 (split; [done|]).
      unfold mbind, M_bind. by rewrite Hclose.
Qed.

Section application_properties.
Variable bootstrap : M unit.
Variable int : string → option Z.
Variable neo4j_uri neo4j_user neo4j_password : string.
Variable OpenAIClient_init : M unit.
Variable Embedder_init : M unit.
Variable KnowledgeGraphGenerator_init : M unit.
Variable run_kg_generation_iterations : string → Z → M unit.

(** X21.  With fewer than two arguments after the program name, or with an
    iteration count that is not an integer or not positive, [main] prints one
    line and exits with code 1; nothing else has happened since the
    bootstrap: no client was constructed and the store was not contacted. *)
Theorem main_rejects_arguments (argv : list string) (w w0 : World) :
  bootstrap w = (Ok (), w0) →
  (length argv < 3)%nat
  ∨ int (nth 2 argv "") = None
  ∨ (∃ n, int (nth 2 argv "") = Some n ∧ (n ≤ 0)%Z) →
  ∃ line, main bootstrap int neo4j_uri neo4j_user neo4j_password OpenAIClient_init
      Embedder_init KnowledgeGraphGenerator_init run_kg_generation_iterations argv w
          = (Raise (SystemExit 1), add_stdout line w0).
Proof.
  intros Hboot Hbad. unfold main, mbind, M_bind. rewrite Hboot.
  destruct (decide (length argv < 3)%nat) as [Hshort|Hlong].
  { by exists usage. }
  exists iterations_error.
  destruct Hbad as [?|[Hnone|(n & Hsome & Hn)]]; [done| |].
  - unfold try_except_ValueError, raise. by rewrite Hnone.
  - unfold try_except_ValueError, raise, mret, M_ret. rewrite Hsome.
    by rewrite decide_True.
Qed.

Lemma main_accepted (argv : list string) (n : Z) (w w1 : World) :
  accepted bootstrap int OpenAIClient_init argv n w w1 →
  main bootstrap int neo4j_uri neo4j_user neo4j_password OpenAIClient_init
      Embedder_init KnowledgeGraphGenerator_init run_kg_generation_iterations argv w
  = (Neo4jClient_init neo4j_uri neo4j_user neo4j_password;;
     Embedder_init;;
     KnowledgeGraphGenerator_init;;
     main_guarded (run_kg_generation_iterations (nth 1 argv "") n)) w1.
Proof.
  intros (w0 & Hboot & Hlen & Hint & Hn & Hopen).
  unfold main. unfold mbind at 1. unfold M_bind at 1. rewrite Hboot.
  rewrite decide_False by lia.
  unfold mbind at 1. unfold M_bind at 1.
  unfold try_except_ValueError, raise, mbind, M_bind, mret, M_ret.
  rewrite Hint. rewrite decide_False by lia. by rewrite Hopen.
Qed.

(** X22.  With accepted arguments, when the constructor of the store client
    fails, [main] ends with the exception of the constructor, not with exit
    code 2: the generator has not run and the graph is untouched.  For a URI
    that the driver library refuses, the exception is the library's and the
    client holds no driver; for an accepted URI and a server that does not
    answer, it is the store's, and the driver that the constructor opened has
    been closed. *)
Theorem main_store_client_fails (argv : list string) (n : Z) (w w1 : World) :
  accepted bootstrap int OpenAIClient_init argv n w w1 →
  driver_accepts (env w1) neo4j_uri = false ∨ server_up w1 = false →
  ∃ e w', main bootstrap int neo4j_uri neo4j_user neo4j_password OpenAIClient_init
      Embedder_init KnowledgeGraphGenerator_init run_kg_generation_iterations argv w = (Raise e, w')
    ∧ graph w' = graph w1
    ∧ if driver_accepts (env w1) neo4j_uri
      then e = ServiceUnavailable ∧ _driver w' = Some (mkDriver 1)
      else e = ConfigurationError ∧ _driver w' = None.
Proof.
  intros Hacc Hfail. rewrite (main_accepted argv n w w1 Hacc).
  destruct (driver_accepts (env w1) neo4j_uri) eqn:Hdrv.
  - destruct Hfail as [?|Hdown]; [done|].
    destruct (Neo4jClient_init_down neo4j_uri neo4j_user neo4j_password w1 Hdrv Hdown)
      as (w' & Hinit & Hd & Hg & _).
    exists ServiceUnavailable, w'. unfold mbind, M_bind. by rewrite Hinit.
  - destruct (Neo4jClient_init_refused neo4j_uri neo4j_user neo4j_password w1 Hdrv)
      as (w' & Hinit & Hd & Hg & _).
    exists ConfigurationError, w'. unfold mbind, M_bind. by rewrite Hinit.
Qed.

(** X23.  With accepted arguments, a URI that the driver library accepts and
    the server up, when the constructor of the embedder or of the generator
    raises, [main] ends with that exception in the very world the
    constructor left: the store client had been constructed, and [main] does
    not close it. *)
Theorem main_late_constructor_failure (argv : list string) (n : Z)
    (w w1 w3 : World) (e : exn) :
  accepted bootstrap int OpenAIClient_init argv n w w1 →
  driver_accepts (env w1) neo4j_uri = true →
  server_up w1 = true →
  (let w2 := (Neo4jClient_init neo4j_uri neo4j_user neo4j_password w1).2 in
   Embedder_init w2 = (Raise e, w3)
   ∨ ∃ w2', Embedder_init w2 = (Ok (), w2')
            ∧ KnowledgeGraphGenerator_init w2' = (Raise e, w3)) →
  usable (Neo4jClient_init neo4j_uri neo4j_user neo4j_password w1).2
  ∧ main bootstrap int neo4j_uri neo4j_user neo4j_password OpenAIClient_init
      Embedder_init KnowledgeGraphGenerator_init run_kg_generation_iterations argv w = (Raise e, w3).
Proof.
  intros Hacc Hdrv Hup Hfail. rewrite (main_accepted argv n w w1 Hacc).
  destruct (Neo4jClient_init_up neo4j_uri neo4j_user neo4j_password w1 Hdrv Hup)
    as (w2 & Hinit & Hu & _).
  rewrite Hinit in *. simpl in *. split; [done|].
  unfold mbind, M_bind. rewrite Hinit.
  destruct Hfail as [Hemb|(w2' & Hemb & Hgen)]; rewrite Hemb; [done|].
  by rewrite Hgen.
Qed.

(** X24.  With accepted arguments, a URI that the driver library accepts,
    the server up and all constructors returning, [main] runs the generator
    with the prompt and the iteration count, passes through [close], and then
    returns when the run returned, exits with code 2 when the run raised an
    [Exception], and lets any other exception pass. *)
Theorem main_runs_generator (argv : list string) (n : Z)
    (w w1 w3 w4 w5 : World) (r : result unit) :
  accepted bootstrap int OpenAIClient_init argv n w w1 →
  driver_accepts (env w1) neo4j_uri = true →
  server_up w1 = true →
  Embedder_init (Neo4jClient_init neo4j_uri neo4j_user neo4j_password w1).2 = (Ok (), w3) →
  KnowledgeGraphGenerator_init w3 = (Ok (), w4) →
  run_kg_generation_iterations (nth 1 argv "") n w4 = (r, w5) →
  ∃ w6 w7, _driver w6 = _driver w5
           ∧ close w6 = (Ok (), w7)
           ∧ main bootstrap int neo4j_uri neo4j_user neo4j_password OpenAIClient_init
      Embedder_init KnowledgeGraphGenerator_init run_kg_generation_iterations argv w = (surfaced r, add_log (INFO, Finished) w7).
Proof.
  intros Hacc Hdrv Hup Hemb Hgen Hrun. rewrite (main_accepted argv n w w1 Hacc).
  destruct (Neo4jClient_init_up neo4j_uri neo4j_user neo4j_password w1 Hdrv Hup)
    as (w2 & Hinit & _).
  rewrite Hinit in Hemb. simpl in Hemb.
  destruct (main_guarded_run _ w4 r w5 Hrun) as (w6 & w7 & Hd & Hclose & Hmain).
  exists w6, w7. do 2 (split; [done|]).
  unfold mbind, M_bind. by rewrite Hinit, Hemb, Hgen.
Qed.
End application_properties.

Lemma main_rejects_arguments_witness :
  ∃ line, main idle int_of_digit bolt_uri "neo4j" "secret" idle idle idle sample_run argv_zero unborn_world
          = (Raise (SystemExit 1), add_stdout line unborn_world).
Proof.
  apply (main_rejects_arguments idle int_of_digit bolt_uri "neo4j" "secret"
           idle idle idle sample_run argv_zero unborn_world unborn_world);
    [reflexivity|].
  right; right. exists 0%Z. split; [reflexivity | lia].
Defined.

Lemma accepted_two (w : World) : accepted idle int_of_digit idle argv_two 2 w w.
Proof. exists w. repeat split; simpl; lia. Qed.

Lemma main_store_client_fails_witness :
  ∃ e w', main idle int_of_digit bare_uri "neo4j" "secret" idle idle idle sample_run
            argv_two unborn_world
          = (Raise e, w')
    ∧ graph w' = graph unborn_world
    ∧ e = ConfigurationError ∧ _driver w' = None.
Proof.
  apply (main_store_client_fails idle int_of_digit bare_uri "neo4j" "secret"
           idle idle idle sample_run argv_two 2 unborn_world unborn_world);
    [apply accepted_two | left; reflexivity].
Defined.

Lemma main_late_constructor_failure_witness :
  usable (Neo4jClient_init bolt_uri "neo4j" "secret" unborn_world).2
  ∧ main idle int_of_digit bolt_uri "neo4j" "secret" idle broken_constructor idle sample_run argv_two unborn_world
    = (Raise (OtherException "embedding model not found"),
       (Neo4jClient_init bolt_uri "neo4j" "secret" unborn_world).2).
Proof.
  apply (main_late_constructor_failure idle int_of_digit bolt_uri "neo4j" "secret"
           idle broken_constructor idle sample_run argv_two 2
           unborn_world unborn_world);
    [apply accepted_two | reflexivity | reflexivity | by left].
Defined.

Lemma main_runs_generator_witness :
  ∃ w6 w7, _driver w6 = _driver (Neo4jClient_init bolt_uri "neo4j" "secret" unborn_world).2
           ∧ close w6 = (Ok (), w7)
           ∧ main idle int_of_digit bolt_uri "neo4j" "secret" idle idle idle sample_run argv_two unborn_world
             = (Raise (SystemExit 2), add_log (INFO, Finished) w7).
Proof.
  apply (main_runs_generator idle int_of_digit bolt_uri "neo4j" "secret"
           idle idle idle sample_run argv_two 2 unborn_world unborn_world
           (Neo4jClient_init bolt_uri "neo4j" "secret" unborn_world).2 (Neo4jClient_init bolt_uri "neo4j" "secret" unborn_world).2 (Neo4jClient_init bolt_uri "neo4j" "secret" unborn_world).2
           (Raise (OtherException "extraction failed")));
    [apply accepted_two | reflexivity..].
Defined.

(** ** The methods composed *)







(** ** The driver over any sequence of calls *)

Lemma perform_keeps_driver (c : call) (w : World) :
  match c with
  | Close => True
  | _ => _driver (perform c w) = _driver w
  end.
Proof.
  destruct c as [e|l| | |]; simpl; [| | | |done].
  - destruct (create_node_returns e w) as (r & w' & Hrun & Hd & _). by rewrite Hrun.
  - destruct (create_relationship_cases l w) as (w' & Hrun & Hd & _). by rewrite Hrun.
  - unfold query_node_names. unfold_monad.
    destruct w as [[[n]|] up g h lg out ev]; simpl;
      [case_bool_decide; simpl; [destruct up; simpl|]|]; done.
  - unfold find_longest_paths, _find_longest_path_tx. unfold_monad.
    destruct w as [[[n]|] up g h lg out ev]; simpl;
      [case_bool_decide; simpl; [destruct up; simpl|]|]; try done.
    by destruct (cypher_longest_paths g).
Qed.

Lemma perform_all_keeps_driver (cs : list call) (w : World) (d : Driver) :
  _driver w = Some d → ∃ d', _driver (perform_all cs w) = Some d'.
Proof.
  revert w d. induction cs as [|c cs IH]; intros w d Hd; [by exists d|].
  simpl. pose proof (perform_keeps_driver c w) as Hc.
  destruct c; simpl in *;
    try (by apply (IH _ d); rewrite Hc).
  rewrite (close_with_driver w d Hd). simpl. by eapply IH.
Qed.

(** X26.  A client that holds a driver holds one after any sequence of
    calls, [close] among them: a later [close] always closes the driver and
    logs that at level INFO, and never logs the warning that the driver is
    already closed. *)
Theorem close_after_calls_never_warns (cs : list call) (w : World) (d : Driver) :
  _driver w = Some d →
  ∃ w', close (perform_all cs w) = (Ok (), w')
        ∧ logs w' = (logs (perform_all cs w) ++ [(INFO, DriverClosed)])%list.
Proof.
  intros Hd. destruct (perform_all_keeps_driver cs w d Hd) as (d' & Hd').
  eexists. split; [by apply close_with_driver|]. done.
Qed.

Lemma close_after_calls_never_warns_witness :
  ∃ w', close (perform_all [CreateNode paris; Close; QueryNodeNames; Close] fresh_world)
        = (Ok (), w')
        ∧ logs w'
          = (logs (perform_all [CreateNode paris; Close; QueryNodeNames; Close] fresh_world)
             ++ [(INFO, DriverClosed)])%list.
Proof.
  apply (close_after_calls_never_warns _ fresh_world (mkDriver 0)). reflexivity.
Defined.
